(** * Verification of the depth-bounded crawler in [scraper.py]

    The development embeds the traversal, dedup, persistence and resume code
    of [scraper.py] as Rocq functions with explicit state passing.

    Conventions of the embedding:
    - a Python [str] is a [string]; every character stands for one code
      point below 256;
    - Python [int] is [Z];
    - the record store (table [pages], primary key [url]) is a
      [gmap string Page];
    - [visited_urls] is a [gset string];
    - [queue.Queue] is a FIFO [list];
    - a raised exception is a constructor of [outcome];
    - every [ThreadPoolExecutor] is run with a single worker: the submitted
      calls run one after another, in submission order. *)

From Stdlib Require Import ZArith Ascii String List Bool Lia.
From stdpp Require Import base gmap strings list fin_maps.

Local Open Scope Z_scope.

(** ** Python [str] operations used by the program *)

Module Py.

(** [a + b] on [str] *)
Fixpoint add (a b : string) : string :=
  match a with
  | EmptyString => b
  | String c a' => String c (add a' b)
  end.

(** [s.startswith(p)] *)
Fixpoint startswith (s p : string) : bool :=
  match p with
  | EmptyString => true
  | String c p' =>
      match s with
      | EmptyString => false
      | String d s' => if Ascii.eqb c d then startswith s' p' else false
      end
  end.

(** [c in s] for a one-character [c] *)
Fixpoint contains (c : ascii) (s : string) : bool :=
  match s with
  | EmptyString => false
  | String d s' => if Ascii.eqb c d then true else contains c s'
  end.

(** [s.find(c)]: [None] stands for -1 *)
Fixpoint find (c : ascii) (s : string) : option nat :=
  match s with
  | EmptyString => None
  | String d s' =>
      if Ascii.eqb c d then Some O
      else match find c s' with Some i => Some (S i) | None => None end
  end.

(** [s.rfind(c)] *)
Fixpoint rfind (c : ascii) (s : string) : option nat :=
  match s with
  | EmptyString => None
  | String d s' =>
      match rfind c s' with
      | Some i => Some (S i)
      | None => if Ascii.eqb c d then Some O else None
      end
  end.

(** [s[:n]] *)
Fixpoint take (n : nat) (s : string) : string :=
  match n, s with
  | S n', String c s' => String c (take n' s')
  | _, _ => EmptyString
  end.

(** [s[n:]] *)
Fixpoint drop (n : nat) (s : string) : string :=
  match n, s with
  | S n', String _ s' => drop n' s'
  | _, _ => s
  end.

(** [s.replace(c, "")] *)
Fixpoint remove (c : ascii) (s : string) : string :=
  match s with
  | EmptyString => EmptyString
  | String d s' => if Ascii.eqb c d then remove c s' else String d (remove c s')
  end.

(** [s.split(c, 1)] on a string that contains [c] *)
Definition split_once (c : ascii) (s : string) : string * string :=
  match find c s with
  | Some i => (take i s, drop (S i) s)
  | None => (s, EmptyString)
  end.

(** [s.split(c)] *)
Fixpoint split (c : ascii) (s : string) : list string :=
  match s with
  | EmptyString => [EmptyString]
  | String d s' =>
      if Ascii.eqb c d then EmptyString :: split c s'
      else match split c s' with
           | w :: ws => String d w :: ws
           | [] => [String d EmptyString]
           end
  end.

(** [sep.join(l)] *)
Fixpoint join (sep : string) (l : list string) : string :=
  match l with
  | [] => EmptyString
  | [w] => w
  | w :: ws => add w (add sep (join sep ws))
  end.

Definition is_upper (c : ascii) : bool :=
  let n := nat_of_ascii c in (Nat.leb 65 n && Nat.leb n 90)%bool.

Definition is_lower (c : ascii) : bool :=
  let n := nat_of_ascii c in (Nat.leb 97 n && Nat.leb n 122)%bool.

Definition is_digit (c : ascii) : bool :=
  let n := nat_of_ascii c in (Nat.leb 48 n && Nat.leb n 57)%bool.

(** [s.lower()] on ASCII letters *)
Fixpoint lower (s : string) : string :=
  match s with
  | EmptyString => EmptyString
  | String c s' =>
      String (if is_upper c then ascii_of_nat (nat_of_ascii c + 32) else c)
             (lower s')
  end.

Fixpoint all (p : ascii -> bool) (s : string) : bool :=
  match s with
  | EmptyString => true
  | String c s' => if p c then all p s' else false
  end.

(** Python's whitespace below code point 256: TAB, LF, VT, FF, CR,
    FS, GS, RS, US, SPACE, NEL and NBSP. *)
Definition is_space (c : ascii) : bool :=
  let n := nat_of_ascii c in
  ((Nat.leb 9 n && Nat.leb n 13) || (Nat.leb 28 n && Nat.leb n 32)
   || Nat.eqb n 133 || Nat.eqb n 160)%bool.

Fixpoint lstrip (s : string) : string :=
  match s with
  | EmptyString => EmptyString
  | String c s' => if is_space c then lstrip s' else s
  end.

Fixpoint rstrip (s : string) : string :=
  match s with
  | EmptyString => EmptyString
  | String c s' =>
      match rstrip s' with
      | EmptyString => if is_space c then EmptyString else String c EmptyString
      | r => String c r
      end
  end.

(** [s.strip()] *)
Definition strip (s : string) : string := rstrip (lstrip s).

(** truth value of a string: [if s:] *)
Definition truthy (s : string) : bool :=
  match s with EmptyString => false | _ => true end.

(** the code points of [s]: [[ord(c) for c in s]] *)
Definition codes (s : string) : list N :=
  N_of_ascii <$> list_ascii_of_string s.

End Py.

Infix "+^" := Py.add (at level 60, right associativity).

(** ** [urllib.parse]: [urlparse] and [urljoin]

    [scraper.py] imports both from the Python standard library.  The
    definitions follow [Lib/urllib/parse.py] of CPython 3.10.  The NFKC test
    of [_checknetloc] is left out: for code points below 256 no
    compatibility decomposition contains one of the characters it looks
    for, so it never raises on the strings of this embedding. *)

Module Url.

Inductive error := ValueError (msg : string).

Record ParseResult := mkParse {
  scheme : string;
  netloc : string;
  path : string;
  params : string;
  query : string;
  fragment : string
}.

Definition uses_relative : list string :=
  [""; "ftp"; "http"; "gopher"; "nntp"; "imap"; "wais"; "file"; "https";
   "shttp"; "mms"; "prospero"; "rtsp"; "rtspu"; "sftp"; "svn"; "svn+ssh";
   "ws"; "wss"].

Definition uses_netloc : list string :=
  [""; "ftp"; "http"; "gopher"; "nntp"; "telnet"; "imap"; "wais"; "file";
   "mms"; "https"; "shttp"; "snews"; "prospero"; "rtsp"; "rtspu"; "rsync";
   "svn"; "svn+ssh"; "sftp"; "nfs"; "git"; "git+ssh"; "ws"; "wss"].

Definition uses_params : list string :=
  [""; "ftp"; "hdl"; "prospero"; "http"; "imap"; "https"; "shttp"; "rtsp";
   "rtspu"; "sip"; "sips"; "mms"; "sftp"; "tel"].

Definition mem (s : string) (l : list string) : bool :=
  existsb (String.eqb s) l.

(** membership in [scheme_chars]: letters, digits, [+], [-], [.] *)
Definition scheme_char (c : ascii) : bool :=
  (Py.is_lower c || Py.is_upper c || Py.is_digit c
   || Ascii.eqb c "+" || Ascii.eqb c "-" || Ascii.eqb c ".")%bool.

(** [_UNSAFE_URL_BYTES_TO_REMOVE = ['\t', '\r', '\n']] *)
Definition remove_unsafe (s : string) : string :=
  Py.remove (ascii_of_nat 10)
    (Py.remove (ascii_of_nat 13) (Py.remove (ascii_of_nat 9) s)).

Definition min_delim (o : option nat) (d : nat) : nat :=
  match o with Some w => Nat.min d w | None => d end.

(** [_splitnetloc(url, 2)] *)
Definition splitnetloc (url : string) : string * string :=
  let body := Py.drop 2 url in
  let shift o := match o with Some i => Some (i + 2)%nat | None => None end in
  let delim := String.length url in
  let delim := min_delim (shift (Py.find "/" body)) delim in
  let delim := min_delim (shift (Py.find "?" body)) delim in
  let delim := min_delim (shift (Py.find "#" body)) delim in
  (Py.drop 2 (Py.take delim url), Py.drop delim url).

(** [urlsplit(url, scheme)] returns (scheme, netloc, path, query, fragment) *)
Definition urlsplit (url0 scheme0 : string)
  : error + (string * string * string * string * string) :=
  let url := remove_unsafe url0 in
  let scheme := remove_unsafe scheme0 in
  let '(scheme, url) :=
    match Py.find ":" url with
    | Some (S i) =>
        if Py.all scheme_char (Py.take (S i) url)
        then (Py.lower (Py.take (S i) url), Py.drop (S (S i)) url)
        else (scheme, url)
    | _ => (scheme, url)
    end in
  let split_rest (netloc url : string) :=
    let '(url, fragment) :=
      if Py.contains "#" url then Py.split_once "#" url else (url, "") in
    let '(url, query) :=
      if Py.contains "?" url then Py.split_once "?" url else (url, "") in
    (scheme, netloc, url, query, fragment) in
  if Py.startswith url "//" then
    let '(netloc, url) := splitnetloc url in
    if ((Py.contains "[" netloc && negb (Py.contains "]" netloc))
        || (Py.contains "]" netloc && negb (Py.contains "[" netloc)))%bool
    then inl (ValueError "Invalid IPv6 URL")
    else inr (split_rest netloc url)
  else inr (split_rest "" url).

(** [_splitparams(url)] *)
Definition splitparams (url : string) : string * string :=
  if Py.contains "/" url then
    match Py.rfind "/" url with
    | Some r =>
        match Py.find ";" (Py.drop r url) with
        | Some j => (Py.take (r + j) url, Py.drop (S (r + j)) url)
        | None => (url, "")
        end
    | None => (url, "")
    end
  else
    match Py.find ";" url with
    | Some i => (Py.take i url, Py.drop (S i) url)
    | None =>
        (* [i = -1]: [url[:-1], url[0:]] *)
        (Py.take (String.length url - 1) url, url)
    end.

(** [urlparse(url, scheme)] *)
Definition urlparse_with (url scheme0 : string) : error + ParseResult :=
  match urlsplit url scheme0 with
  | inl e => inl e
  | inr (sch, nl, p, q, f) =>
      if (mem sch uses_params && Py.contains ";" p)%bool then
        let '(p', prm) := splitparams p in
        inr (mkParse sch nl p' prm q f)
      else inr (mkParse sch nl p "" q f)
  end.

Definition urlparse (url : string) : error + ParseResult :=
  urlparse_with url "".

(** [urlunsplit] *)
Definition urlunsplit (sch nl url q f : string) : string :=
  let url :=
    if (Py.truthy nl
        || (Py.truthy sch && mem sch uses_netloc
            && negb (Py.startswith url "//")))%bool
    then
      let url :=
        if (Py.truthy url && negb (Py.startswith url "/"))%bool
        then "/" +^ url else url in
      "//" +^ nl +^ url
    else url in
  let url := if Py.truthy sch then sch +^ ":" +^ url else url in
  let url := if Py.truthy q then url +^ "?" +^ q else url in
  if Py.truthy f then url +^ "#" +^ f else url.

(** [urlunparse] *)
Definition urlunparse (r : ParseResult) : string :=
  let url :=
    if Py.truthy (params r) then path r +^ ";" +^ params r else path r in
  urlunsplit (scheme r) (netloc r) url (query r) (fragment r).

(** [segments[1:-1] = filter(None, segments[1:-1])] *)
Definition filter_inner (segments : list string) : list string :=
  match segments with
  | [] => []
  | [a] => [a]
  | a :: rest =>
      a :: List.filter Py.truthy (removelast rest) ++ [List.last rest ""]
  end.

(** the loop of [urljoin] over the segments, removing dot segments *)
Fixpoint resolve_segments (segments resolved : list string) : list string :=
  match segments with
  | [] => resolved
  | seg :: rest =>
      if String.eqb seg ".." then resolve_segments rest (removelast resolved)
      else if String.eqb seg "." then resolve_segments rest resolved
      else resolve_segments rest (resolved ++ [seg])
  end.

(** [urljoin(base, url)] *)
Definition urljoin (base url : string) : error + string :=
  if negb (Py.truthy base) then inr url
  else if negb (Py.truthy url) then inr base
  else
    match urlparse base with
    | inl e => inl e
    | inr b =>
        match urlparse_with url (scheme b) with
        | inl e => inl e
        | inr u =>
            if (negb (String.eqb (scheme u) (scheme b))
                || negb (mem (scheme u) uses_relative))%bool
            then inr url
            else if (mem (scheme u) uses_netloc && Py.truthy (netloc u))%bool
            then inr (urlunparse u)
            else
              let nl :=
                if mem (scheme u) uses_netloc then netloc b else netloc u in
              if (negb (Py.truthy (path u)) && negb (Py.truthy (params u)))%bool
              then
                let q := if Py.truthy (query u) then query u else query b in
                inr (urlunparse
                       (mkParse (scheme u) nl (path b) (params b) q (fragment u)))
              else
                let base_parts := Py.split "/" (path b) in
                let base_parts :=
                  if String.eqb (List.last base_parts "") ""
                  then base_parts else removelast base_parts in
                let segments :=
                  if Py.startswith (path u) "/" then Py.split "/" (path u)
                  else filter_inner (base_parts ++ Py.split "/" (path u)) in
                let resolved := resolve_segments segments [] in
                let resolved :=
                  if (String.eqb (List.last segments "") "."
                      || String.eqb (List.last segments "") "..")%bool
                  then (resolved ++ [""]) else resolved in
                let p := Py.join "/" resolved in
                let p := if Py.truthy p then p else "/" in
                inr (urlunparse
                       (mkParse (scheme u) nl p (params u) (query u) (fragment u)))
        end
    end.

End Url.

(** ** [json]: [json.dumps] on a list of strings, [json.loads] on its output

    A [str] given to [json] is the list of its code points, so that the
    model covers every Python string and not only those of the embedding
    ([Py.codes] gives the code points of one of these).  [json.dumps] is
    used with its defaults ([ensure_ascii=True], separators [", "]): its
    output is ASCII and is a [string].  [loads] is [json.loads] on
    documents that are an array of strings; it answers [None] on a
    malformed document and on any other JSON value.  The definitions follow
    [Lib/json/encoder.py] and [Lib/json/decoder.py] of CPython 3.10. *)

Module Json.

Definition dquote : ascii := ascii_of_nat 34.
Definition backslash : ascii := ascii_of_nat 92.

(** one digit of the format [04x] *)
Definition hex_digit (d : N) : ascii :=
  if (d <? 10)%N then ascii_of_N (48 + d) else ascii_of_N (87 + d).

(** ['{0:04x}'.format(n)] for [n] below 65536 *)
Definition hex4 (n : N) : string :=
  String (hex_digit (n / 16 / 16 / 16 mod 16))
    (String (hex_digit (n / 16 / 16 mod 16))
       (String (hex_digit (n / 16 mod 16))
          (String (hex_digit (n mod 16)) ""))).

Definition u_escape (n : N) : string :=
  String backslash (String "u" (hex4 n)).

(** the replacement of one code point by [py_encode_basestring_ascii]:
    [ESCAPE_DCT] first; the characters from space to tilde stand for
    themselves; [\uxxxx] below 65536; a surrogate pair above *)
Definition escape (c : N) : string :=
  if (c =? 92)%N then String backslash (String backslash "")
  else if (c =? 34)%N then String backslash (String dquote "")
  else if (c =? 8)%N then String backslash "b"
  else if (c =? 12)%N then String backslash "f"
  else if (c =? 10)%N then String backslash "n"
  else if (c =? 13)%N then String backslash "r"
  else if (c =? 9)%N then String backslash "t"
  else if ((32 <=? c) && (c <=? 126))%N then String (ascii_of_N c) ""
  else if (c <? 65536)%N then u_escape c
  else
    let n := (c - 65536)%N in
    u_escape (55296 + n / 1024 mod 1024) +^ u_escape (56320 + n mod 1024).

Fixpoint escape_all (s : list N) : string :=
  match s with
  | [] => EmptyString
  | c :: s' => escape c +^ escape_all s'
  end.

(** [py_encode_basestring_ascii(s)] *)
Definition encode_basestring_ascii (s : list N) : string :=
  String dquote (escape_all s +^ String dquote "").

(** [json.dumps(l)] for a list of [str] *)
Definition dumps (l : list (list N)) : string :=
  "[" +^ Py.join ", " (List.map encode_basestring_ascii l) +^ "]".

Definition is_ws (c : ascii) : bool :=
  let n := N_of_ascii c in
  ((n =? 32) || (n =? 9) || (n =? 10) || (n =? 13))%N.

Definition hex_value (c : ascii) : option N :=
  let n := N_of_ascii c in
  if ((48 <=? n) && (n <=? 57))%N then Some (n - 48)%N
  else if ((97 <=? n) && (n <=? 102))%N then Some (n - 87)%N
  else if ((65 <=? n) && (n <=? 70))%N then Some (n - 55)%N
  else None.

(** [_decode_uXXXX] *)
Definition decode_uXXXX (a b c d : ascii) : option N :=
  match hex_value a, hex_value b, hex_value c, hex_value d with
  | Some x, Some y, Some z, Some t => Some (((x * 16 + y) * 16 + z) * 16 + t)%N
  | _, _, _, _ => None
  end.

(** the table [BACKSLASH] of the decoder *)
Definition unescape (e : ascii) : option ascii :=
  if Ascii.eqb e dquote then Some dquote
  else if Ascii.eqb e backslash then Some backslash
  else if Ascii.eqb e "/" then Some "/"%char
  else if Ascii.eqb e "b" then Some (ascii_of_nat 8)
  else if Ascii.eqb e "f" then Some (ascii_of_nat 12)
  else if Ascii.eqb e "n" then Some (ascii_of_nat 10)
  else if Ascii.eqb e "r" then Some (ascii_of_nat 13)
  else if Ascii.eqb e "t" then Some (ascii_of_nat 9)
  else None.

(** What the scanner reads inside a string literal: a code point written
    as itself or by a short escape, or the value of a [\uXXXX] escape. *)
Inductive unit :=
| Lit (c : N)
| Esc (c : N).

Definition is_high (c : N) : bool := ((55296 <=? c) && (c <=? 56319))%N.
Definition is_low (c : N) : bool := ((56320 <=? c) && (c <=? 57343))%N.

(** The code points of a string literal: a [\uXXXX] escape of a high
    surrogate directly followed by a [\uXXXX] escape of a low surrogate
    is one code point, as in [py_scanstring]. *)
Fixpoint combine (us : list unit) : list N :=
  match us with
  | [] => []
  | Lit c :: rest => c :: combine rest
  | Esc h :: rest =>
      match rest with
      | Esc l :: rest' =>
          if (is_high h && is_low l)%bool
          then (65536 + (h - 55296) * 1024 + (l - 56320))%N :: combine rest'
          else h :: combine rest
      | _ => h :: combine rest
      end
  end.

Inductive position :=
| AtStart
| AtFirst
| AtValue
| InString
| AfterValue
| AtEnd.

Fixpoint scan (p : position) (cur : list unit) (vals : list (list N))
         (s : string) : option (list (list N)) :=
  match s with
  | EmptyString =>
      match p with AtEnd => Some (List.rev vals) | _ => None end
  | String c r =>
      match p with
      | AtStart =>
          if is_ws c then scan AtStart cur vals r
          else if Ascii.eqb c "[" then scan AtFirst cur vals r
          else None
      | AtFirst =>
          if is_ws c then scan AtFirst cur vals r
          else if Ascii.eqb c "]" then scan AtEnd cur vals r
          else if Ascii.eqb c dquote then scan InString [] vals r
          else None
      | AtValue =>
          if is_ws c then scan AtValue cur vals r
          else if Ascii.eqb c dquote then scan InString [] vals r
          else None
      | InString =>
          if Ascii.eqb c dquote
          then scan AfterValue [] (combine (List.rev cur) :: vals) r
          else if Ascii.eqb c backslash then
            match r with
            | String e r' =>
                if Ascii.eqb e "u" then
                  match r' with
                  | String x1 (String x2 (String x3 (String x4 r''))) =>
                      match decode_uXXXX x1 x2 x3 x4 with
                      | Some v => scan InString (Esc v :: cur) vals r''
                      | None => None
                      end
                  | _ => None
                  end
                else
                  match unescape e with
                  | Some ch => scan InString (Lit (N_of_ascii ch) :: cur) vals r'
                  | None => None
                  end
            | EmptyString => None
            end
          else if (N_of_ascii c <? 32)%N then None
          else scan InString (Lit (N_of_ascii c) :: cur) vals r
      | AfterValue =>
          if is_ws c then scan AfterValue cur vals r
          else if Ascii.eqb c "]" then scan AtEnd cur vals r
          else if Ascii.eqb c "," then scan AtValue cur vals r
          else None
      | AtEnd =>
          if is_ws c then scan AtEnd cur vals r else None
      end
  end.

Definition loads (s : string) : option (list (list N)) :=
  scan AtStart [] [] s.

End Json.

(** ** The data of [scraper.py] *)

(** The value held by [links]: the list returned by [get_links], the
    [set()] of a placeholder row, or the JSON text written by the writer. *)
Inductive links_value :=
| LinksList (l : list string)
| LinksSet (s : gset string)
| LinksStr (s : string).

(** The value held by [title]: a [str], or the [bytes] of [codecs.encode]. *)
Inductive title_value :=
| TitleStr (s : string)
| TitleBytes (b : list Byte.byte).

(** [class Page]: a row of the table [pages]. *)
Record Page := mkPage {
  url : string;
  source_url : string;
  depth : Z;
  title : title_value;
  links : links_value
}.

(** The tuple [(url, driver.current_url, depth, title, links)] that
    [scrape] hands to [save_to_db]. *)
Record Entry := mkEntry {
  entry_url : string;
  entry_source : string;
  entry_depth : Z;
  entry_title : string;
  entry_links : links_value
}.

(** What BeautifulSoup gives the program: [soup.title] (absent, or a tag
    whose [.string] may be absent) and [link.get("href")] for every anchor
    of [soup.find_all("a")]. *)
Record Soup := mkSoup {
  soup_title : option (option string);
  soup_anchors : list (option string)
}.

Inductive level := INFO | ERROR.

(** The lines given to [logging]. *)
Inductive message :=
| MsgResuming (count : Z) (u : string)
| MsgStart (u : string) (max_depth : Z)
| MsgNoData (u : string)
| MsgAllScraped (u : string)
| MsgResumeFrom (u : string) (d : Z)
| MsgErrorScraping (u : string)
| MsgScraped (u : string) (d : Z) (t : string)
| MsgErrorParsing (href : string)
| MsgErrorSaving (u : string).

Inductive committer := ByGetLink | ByWriter.

(** What a run does, in order. *)
Inductive event :=
| EvFetch (u : string) (d : Z)            (* [driver.get(u)] by [scrape(u, d)] *)
| EvPut (e : Entry)                        (* [db_insert_queue.put(e)] *)
| EvCommit (who : committer) (p : Page)    (* a row written by [session.commit()] *)
| EvThreadStart                            (* [db_insert_thread.start()] *)
| EvLog (l : level) (m : message).

(** The exceptions of a run: [AttributeError], and [ValueError] as
    [urllib.parse] and the constructor of [ThreadPoolExecutor] raise it. *)
Inductive exn :=
| AttributeError (msg : string)
| UrlError (e : Url.error).

(** [ThreadPoolExecutor(max_workers=n)]: the constructor raises
    [ValueError] when [n <= 0] (as does [concurrent/futures/thread.py]). *)
Definition ThreadPoolExecutor (max_workers : Z) : option exn :=
  if max_workers <=? 0
  then Some (UrlError (Url.ValueError "max_workers must be greater than 0"))
  else None.

Inductive outcome :=
| Returned
| Raised (e : exn)
| OutOfFuel.

(** The collaborators of the program. *)
Record World := mkWorld {
  (** [driver.get(u)]: [None] when it raises; otherwise
      [driver.current_url] and the soup of [driver.page_source] *)
  fetch : string -> option (string * Soup);
  (** whether the store accepts the row at [session.commit()] *)
  commit_ok : Page -> bool;
  (** the order in which [as_completed] yields the finished futures *)
  as_completed : list (list string) -> list (list string);
  as_completed_perm : forall fs, Permutation (as_completed fs) fs;
  (** the order in which a [set] is iterated by [list(obj)] *)
  set_iter : gset string -> list string;
  set_iter_perm : forall s, Permutation (set_iter s) (elements s)
}.

(** What the store of the program can hold.  [create_database] opens a
    SQLite engine and [Page.links] is a [Text] column: at [commit] the
    driver binds a [str] to it and refuses a [set] or a [list] with an
    error.  ([title] takes a [str] as well as the [bytes] that the writer
    gives it.) *)
Definition sqlite_binds (p : Page) : bool :=
  match links p with
  | LinksStr _ => true
  | _ => false
  end.

(** The store accepts no row that SQLite cannot bind; it may refuse more
    (a locked file, a full disk). *)
Definition sqlite_store (w : World) : Prop :=
  forall p, commit_ok w p = true -> sqlite_binds p = true.

(** The constructor arguments of [Scraper]. *)
Record Config := mkConfig {
  initial_url : string;
  max_depth : Z;
  max_threads : Z
}.

(** The mutable state: the attributes of the [Scraper] object, the driver,
    the table [pages] and the trace of the run.  [url_queue] is [None]
    when the object has no such attribute. *)
Record Scraper := mkScraper {
  visited_urls : gset string;
  db_insert_queue : list (option Entry);
  url_queue : option (list (string * Z));
  current_url : string;
  pages : gmap string Page;
  trace : list event
}.

Definition set_visited (v : gset string) (s : Scraper) : Scraper :=
  mkScraper v (db_insert_queue s) (url_queue s) (current_url s) (pages s) (trace s).

Definition set_queue (q : list (option Entry)) (s : Scraper) : Scraper :=
  mkScraper (visited_urls s) q (url_queue s) (current_url s) (pages s) (trace s).

Definition set_url_queue (q : option (list (string * Z))) (s : Scraper) : Scraper :=
  mkScraper (visited_urls s) (db_insert_queue s) q (current_url s) (pages s) (trace s).

Definition set_current_url (u : string) (s : Scraper) : Scraper :=
  mkScraper (visited_urls s) (db_insert_queue s) (url_queue s) u (pages s) (trace s).

Definition set_pages (m : gmap string Page) (s : Scraper) : Scraper :=
  mkScraper (visited_urls s) (db_insert_queue s) (url_queue s) (current_url s) m (trace s).

Definition emit (e : event) (s : Scraper) : Scraper :=
  mkScraper (visited_urls s) (db_insert_queue s) (url_queue s) (current_url s)
            (pages s) (trace s ++ [e]).

Definition log (l : level) (m : message) : Scraper -> Scraper := emit (EvLog l m).

(** A successful [session.commit()] of row [p]. *)
Definition commit (who : committer) (p : Page) (s : Scraper) : Scraper :=
  emit (EvCommit who p) (set_pages (<[url p := p]> (pages s)) s).

(** [Scraper.__init__] on the database [db]: [url_queue] is never assigned.
    A fresh Chrome session shows [data:,]. *)
Definition init (db : gmap string Page) : Scraper :=
  mkScraper ∅ [] None "data:," db [].

(** [codecs.encode(title, 'utf-8')] *)
Definition utf8 (c : ascii) : list Byte.byte :=
  let n := nat_of_ascii c in
  if Nat.ltb n 128 then [byte_of_ascii c]
  else [byte_of_ascii (ascii_of_nat (192 + n / 64));
        byte_of_ascii (ascii_of_nat (128 + n mod 64))].

Fixpoint codecs_encode (s : string) : list Byte.byte :=
  match s with
  | EmptyString => []
  | String c s' => utf8 c ++ codecs_encode s'
  end.

Section Program.

Variable w : World.
Variable cfg : Config.

(** [SetEncoder.default] followed by the encoding of the list:
    [json.dumps(links, cls=SetEncoder)] for [links] that is not a [str] *)
Definition SetEncoder_dumps (v : links_value) : string :=
  match v with
  | LinksList l => Json.dumps (Py.codes <$> l)
  | LinksSet s => Json.dumps (Py.codes <$> set_iter w s)
  | LinksStr s => Json.encode_basestring_ascii (Py.codes s)
  end.

(** [get_link] *)
Definition get_link (href : string) (s : Scraper) : list string * Scraper :=
  match Url.urlparse href with
  | inl _ => ([], log ERROR (MsgErrorParsing href) s)
  | inr parsed_url =>
      match Url.urlparse (initial_url cfg) with
      | inl _ => ([], log ERROR (MsgErrorParsing href) s)
      | inr seed =>
          if String.eqb (Url.netloc parsed_url) (Url.netloc seed) then
            match pages s !! href with
            | None =>
                let page :=
                  mkPage href (current_url s) 0 (TitleStr "") (LinksSet ∅) in
                if commit_ok w page then ([href], commit ByGetLink page s)
                else ([href], log ERROR (MsgErrorParsing href) s)
            | Some page =>
                if depth page <? max_depth cfg then
                  let page' :=
                    mkPage (url page) (source_url page) (depth page + 1)
                           (title page) (links page) in
                  if commit_ok w page' then ([href], commit ByGetLink page' s)
                  else ([href], log ERROR (MsgErrorParsing href) s)
                else ([], s)
            end
          else ([], s)
      end
  end.

(** The body of the loop of [get_links] up to [executor.submit]: the href
    handed to [get_link], [None] when the anchor is skipped. *)
Definition resolve_href (href : option string) : option (Url.error + string) :=
  match href with
  | None => None
  | Some href =>
      if Py.truthy href then
        if Py.startswith href "/" then Some (Url.urljoin (initial_url cfg) href)
        else if negb (Py.startswith href "http")
             then Some (Url.urljoin (initial_url cfg) href)
             else Some (inr href)
      else None
  end.

(** The loop of [get_links] over the anchors: the results of the futures
    in submission order. *)
Fixpoint submit_links (anchors : list (option string)) (futures : list (list string))
         (s : Scraper) : (exn + list (list string)) * Scraper :=
  match anchors with
  | [] => (inr futures, s)
  | a :: rest =>
      match resolve_href a with
      | None => submit_links rest futures s
      | Some (inl e) => (inl (UrlError e), s)
      | Some (inr href) =>
          let '(r, s') := get_link href s in
          submit_links rest (futures ++ [r]) s'
      end
  end.

(** [get_links]: the executor is built before any anchor is read *)
Definition get_links (soup : Soup) (s : Scraper) : (exn + list string) * Scraper :=
  match ThreadPoolExecutor (max_threads cfg) with
  | Some e => (inl e, s)
  | None =>
      match submit_links (soup_anchors soup) [] s with
      | (inl e, s') => (inl e, s')
      | (inr futures, s') => (inr (concat (as_completed w futures)), s')
      end
  end.

(** [save_to_db] *)
Definition save_to_db (result : Entry) (s : Scraper) : Scraper :=
  emit (EvPut result) (set_queue (db_insert_queue s ++ [Some result]) s).

(** The futures of an executor with one worker: the calls run in
    submission order; an exception raised by a call stays in its future,
    which nobody reads. *)
Fixpoint run_tasks (task : string -> Scraper -> outcome * Scraper)
         (links : list string) (s : Scraper) : outcome * Scraper :=
  match links with
  | [] => (Returned, s)
  | link :: rest =>
      match task link s with
      | (OutOfFuel, s') => (OutOfFuel, s')
      | (_, s') => run_tasks task rest s'
      end
  end.

(** The body of [scrape]; [self] stands for the recursive call. *)
Definition scrape_body (self : string -> Z -> Scraper -> outcome * Scraper)
           (u : string) (d : Z) (s : Scraper) : outcome * Scraper :=
  if d >? max_depth cfg then (Returned, s)
  else if decide (u ∈ visited_urls s) then (Returned, s)
  else
    let s := set_visited ({[u]} ∪ visited_urls s) s in
    let s := emit (EvFetch u d) s in
    match fetch w u with
    | None => (Returned, log ERROR (MsgErrorScraping u) s)
    | Some (final, soup) =>
        let s := set_current_url final s in
        match soup_title soup with
        | None =>
            (Raised (AttributeError "'NoneType' object has no attribute 'string'"), s)
        | Some None =>
            (Raised (AttributeError "'NoneType' object has no attribute 'strip'"), s)
        | Some (Some t) =>
            let t := Py.strip t in
            match get_links soup s with
            | (inl e, s) => (Raised e, s)
            | (inr found, s) =>
                let s := save_to_db (mkEntry u (current_url s) d t (LinksList found)) s in
                let s := log INFO (MsgScraped u d t) s in
                match ThreadPoolExecutor (max_threads cfg) with
                | Some e => (Raised e, s)
                | None =>
                    let children := if d + 1 <=? max_depth cfg then found else [] in
                    run_tasks (fun link => self link (d + 1)) children s
                end
            end
        end
    end.

(** [scrape].  [fuel] bounds the nesting of the recursive calls: a call
    that would nest deeper answers [OutOfFuel]. *)
Fixpoint scrape (fuel : nat) (u : string) (d : Z) (s : Scraper)
  : outcome * Scraper :=
  scrape_body
    (match fuel with
     | O => fun _ _ s' => (OutOfFuel, s')
     | S fuel' => scrape fuel'
     end) u d s.

(** The loop of [resume_scraping] over [url_queue]. *)
Fixpoint skip_until (last_url : string) (q : list (string * Z)) : list (string * Z) :=
  match q with
  | [] => []
  | (u, d) :: q' =>
      if String.eqb u last_url then q' ++ [(u, d)] else skip_until last_url q'
  end.

(** [resume_scraping] *)
Definition resume_scraping (fuel : nat) (s : Scraper) : outcome * Scraper :=
  match pages s !! initial_url cfg with
  | None => (Returned, log ERROR (MsgNoData (initial_url cfg)) s)
  | Some last_page =>
      let last_url := url last_page in
      let last_depth := depth last_page in
      if last_depth >=? max_depth cfg
      then (Returned, log INFO (MsgAllScraped (initial_url cfg)) s)
      else
        match url_queue s with
        | None =>
            (Raised (AttributeError "'Scraper' object has no attribute 'url_queue'"), s)
        | Some q =>
            let s := set_url_queue (Some (skip_until last_url q)) s in
            let s := set_visited ({[last_url]} ∪ visited_urls s) s in
            let s := log INFO (MsgResumeFrom last_url last_depth) s in
            scrape fuel last_url last_depth s
        end
  end.

(** [start_scraping] *)
Definition start_scraping (fuel : nat) (s : Scraper) : outcome * Scraper :=
  let count := match pages s !! initial_url cfg with Some _ => 1 | None => 0 end in
  let '(o, s) :=
    if count >? 0 then
      resume_scraping fuel (log INFO (MsgResuming count (initial_url cfg)) s)
    else
      scrape fuel (initial_url cfg) 0
             (log INFO (MsgStart (initial_url cfg) (max_depth cfg)) s) in
  match o with
  | Returned => (Returned, emit EvThreadStart s)
  | _ => (o, s)
  end.

(** The row built by [run_db_inserts] from a queue entry. *)
Definition page_of_entry (e : Entry) : Page :=
  let text :=
    match entry_links e with
    | LinksStr t => t
    | v => SetEncoder_dumps v
    end in
  mkPage (entry_url e) (entry_source e) (entry_depth e)
         (TitleBytes (codecs_encode (entry_title e))) (LinksStr text).

Inductive writer_status :=
| WriterExited     (* left the loop at the sentinel *)
| WriterWaiting.   (* inside [db_insert_queue.get()] on an empty queue *)

(** The loop of [run_db_inserts] over the content of the queue. *)
Fixpoint writer_loop (q : list (option Entry)) (s : Scraper)
  : writer_status * Scraper :=
  match q with
  | [] => (WriterWaiting, set_queue [] s)
  | None :: q' => (WriterExited, set_queue q' s)
  | Some e :: q' =>
      let page := page_of_entry e in
      if commit_ok w page then writer_loop q' (commit ByWriter page s)
      else writer_loop q' (log ERROR (MsgErrorSaving (entry_url e)) s)
  end.

(** [run_db_inserts] *)
Definition run_db_inserts (s : Scraper) : writer_status * Scraper :=
  writer_loop (db_insert_queue s) s.

(** [cleanup]: the sentinel is put on the queue. *)
Definition cleanup (s : Scraper) : Scraper :=
  set_queue (db_insert_queue s ++ [None]) s.

(** [main] on the database [db].  The writer thread is started by
    [start_scraping] and its loop is run here to the end, after
    [cleanup]: before the sentinel it finds on the queue exactly what
    the traversal has put there.  When [start_scraping] raises, the
    process stops there. *)
Definition main (fuel : nat) (db : gmap string Page)
  : outcome * option writer_status * Scraper :=
  match start_scraping fuel (init db) with
  | (Returned, s) =>
      let '(ws, s') := run_db_inserts (cleanup s) in
      (Returned, Some ws, s')
  | (o, s) => (o, None, s)
  end.

End Program.

(** ** Vocabulary of the statements *)

(** The URLs given to [driver.get], in order. *)
Fixpoint fetched (t : list event) : list string :=
  match t with
  | [] => []
  | EvFetch u _ :: t' => u :: fetched t'
  | _ :: t' => fetched t'
  end.

(** The entries given to [db_insert_queue.put], in order. *)
Fixpoint puts (t : list event) : list Entry :=
  match t with
  | [] => []
  | EvPut e :: t' => e :: puts t'
  | _ :: t' => puts t'
  end.

(** What an expansion may leave in the trace: fetches within the depth
    bound, queue puts, rows written by [get_link], log lines; neither the
    start of the writer thread nor a row written by it. *)
Definition traversal_event (cfg : Config) (e : event) : Prop :=
  match e with
  | EvFetch _ d => d <= max_depth cfg
  | EvPut _ => True
  | EvCommit ByGetLink _ => True
  | EvCommit ByWriter _ => False
  | EvThreadStart => False
  | EvLog _ _ => True
  end.

(** What the writer leaves in the trace for one entry. *)
Definition writer_event (w : World) (e : Entry) : event :=
  if commit_ok w (page_of_entry w e)
  then EvCommit ByWriter (page_of_entry w e)
  else EvLog ERROR (MsgErrorSaving (entry_url e)).

(** Every row of the table is stored under its [url]. *)
Definition store_wf (m : gmap string Page) : Prop :=
  forall k p, m !! k = Some p -> url p = k.

(** What a call of [scrape] does to the state. *)
Definition progress (cfg : Config) (s s' : Scraper) : Prop :=
  exists evs,
    trace s' = trace s ++ evs
    /\ Forall (traversal_event cfg) evs
    /\ (visited_urls s ⊆ visited_urls s')
    /\ db_insert_queue s' = db_insert_queue s ++ List.map Some (puts evs)
    /\ url_queue s' = url_queue s
    /\ NoDup (fetched evs)
    /\ (forall u, u ∈ fetched evs -> (u ∉ visited_urls s) /\ (u ∈ visited_urls s'))
    /\ (store_wf (pages s) -> store_wf (pages s'))
    /\ (forall e, e ∈ puts evs ->
                  EvFetch (entry_url e) (entry_depth e) ∈ trace s').

(** What [get_links] does to the state: it only writes rows and log
    lines. *)
Definition quiet (cfg : Config) (s s' : Scraper) : Prop :=
  visited_urls s' = visited_urls s
  /\ db_insert_queue s' = db_insert_queue s
  /\ url_queue s' = url_queue s
  /\ current_url s' = current_url s
  /\ (store_wf (pages s) -> store_wf (pages s'))
  /\ exists evs,
      trace s' = trace s ++ evs
      /\ Forall (traversal_event cfg) evs
      /\ puts evs = [] /\ fetched evs = [].

(** The guard of [get_link]: both URLs parse and have the same [netloc]. *)
Definition same_netloc (cfg : Config) (href : string) : bool :=
  match Url.urlparse href, Url.urlparse (initial_url cfg) with
  | inr p, inr q => String.eqb (Url.netloc p) (Url.netloc q)
  | _, _ => false
  end.

(** Link resolution as [get_links] and [get_link] do it together: the
    href handed to [get_link], kept when it passes the guard on [netloc]. *)
Definition ResolveLink (cfg : Config) (href : option string) : option string :=
  match resolve_href cfg href with
  | Some (inr h) => if same_netloc cfg h then Some h else None
  | _ => None
  end.

(** [urlsplit(href).scheme] is empty. *)
Definition lacks_scheme (href : string) : bool :=
  match Url.urlsplit href "" with
  | inr (sch, _, _, _, _) => negb (Py.truthy sch)
  | inl _ => false
  end.

(** The origin of a URL: its scheme and network location. *)
Definition origin (u : string) : string :=
  match Url.urlparse u with
  | inr p => Url.scheme p +^ "://" +^ Url.netloc p
  | inl _ => u
  end.

(** Link resolution in the words of the specification: an empty or absent
    href is rejected; an href that starts with a slash or lacks a scheme is
    resolved relative to the origin of the seed; a resolved URL whose
    network location differs from that of the seed is rejected. *)
Definition ResolveLink_spec (seed : string) (href : option string) : option string :=
  match href with
  | None => None
  | Some h =>
      if negb (Py.truthy h) then None
      else
        let resolved :=
          if (Py.startswith h "/" || lacks_scheme h)%bool
          then Url.urljoin (origin seed) h else inr h in
        match resolved with
        | inr r =>
            match Url.urlparse r, Url.urlparse seed with
            | inr p, inr q =>
                if String.eqb (Url.netloc p) (Url.netloc q) then Some r else None
            | _, _ => None
            end
        | inl _ => None
        end
  end.



(** The fuel that [scrape] needs at depth [d]. *)
Definition enough_fuel (cfg : Config) (d : Z) (fuel : nat) : Prop :=
  (Z.to_nat (max_depth cfg - d) <= fuel)%nat.

Module JsonScan.

(** The code point is written by a short escape or as itself. *)
Definition plain (c : N) : bool :=
  ((c =? 92) || (c =? 34) || (c =? 8) || (c =? 12) || (c =? 10) || (c =? 13)
   || (c =? 9) || ((32 <=? c) && (c <=? 126)))%N.

(** What the scanner reads back from [Json.escape c]. *)
Definition units_of (c : N) : list Json.unit :=
  if plain c then [Json.Lit c]
  else if (c <? 65536)%N then [Json.Esc c]
  else
    let n := (c - 65536)%N in
    [Json.Esc (55296 + n / 1024 mod 1024); Json.Esc (56320 + n mod 1024)].

Fixpoint units (s : list N) : list Json.unit :=
  match s with
  | [] => []
  | c :: s' => units_of c ++ units s'
  end.

(** What [json.loads] reads back from the literal of [s]. *)
Definition normalize (s : list N) : list N := Json.combine (units s).

(** Every code point is one of Python: below 1114112. *)
Definition valid (s : list N) : Prop := Forall (fun c => (c < 1114112)%N) s.

(** No high surrogate is directly followed by a low surrogate. *)
Fixpoint no_pair (s : list N) : bool :=
  match s with
  | [] => true
  | a :: t =>
      match t with
      | b :: _ => negb (Json.is_high a && Json.is_low b) && no_pair t
      | [] => true
      end
  end.

Fixpoint tail_of (l : list (list N)) : string :=
  match l with
  | [] => "]"
  | x :: l' => ", " +^ Json.encode_basestring_ascii x +^ tail_of l'
  end.

End JsonScan.

(** A small site for the examples: the seed page links to [/a], to a page
    of another host and to the relative [httpd.html]; [/a] has no title. *)
Module Example.

Definition seed : string := "https://site.test/".

Definition site (u : string) : option (string * Soup) :=
  if String.eqb u seed then
    Some (seed, mkSoup (Some (Some " Home "))
                       [Some "/a"; None; Some ""; Some "https://other.example/x";
                        Some "httpd.html"])
  else if String.eqb u "https://site.test/a" then
    Some ("https://site.test/a", mkSoup None [Some "/"])
  else None.

Definition world : World :=
  mkWorld site (fun _ => true)
          (fun fs => fs) (fun fs => Permutation_refl fs)
          elements (fun s => Permutation_refl (elements s)).

(** The seed page alone, without links. *)
Definition lonely (u : string) : option (string * Soup) :=
  if String.eqb u seed then Some (seed, mkSoup (Some (Some "Home")) []) else None.

Definition lonely_world : World :=
  mkWorld lonely (fun _ => true)
          (fun fs => fs) (fun fs => Permutation_refl fs)
          elements (fun s => Permutation_refl (elements s)).

Definition cfg (d : Z) : Config := mkConfig seed d 1.

Definition seed_row (d : Z) : Page :=
  mkPage seed seed d (TitleStr "") (LinksSet ∅).

(** The same sites on a store that accepts what SQLite binds. *)
Definition sqlite_world : World :=
  mkWorld site sqlite_binds
          (fun fs => fs) (fun fs => Permutation_refl fs)
          elements (fun s => Permutation_refl (elements s)).


(** A row of the seed as the writer stores it. *)
Definition stored_seed (d : Z) : Page :=
  mkPage seed seed d (TitleBytes []) (LinksStr "[]").


End Example.

(** ** Vocabulary of the further properties *)

(** The URL passes the guard of [get_link]. *)
Definition in_domain (cfg : Config) (x : string) : Prop :=
  same_netloc cfg x = true.

(** A queue entry as [scrape] builds it: a depth within the bound and, for
    [links], a list of URLs that passed the guard of [get_link]. *)
Definition entry_ok (cfg : Config) (e : Entry) : Prop :=
  entry_depth e <= max_depth cfg
  /\ exists l, entry_links e = LinksList l /\ Forall (in_domain cfg) l.

(** What a call of [scrape] adds to the trace: the URLs of the entries it
    puts are, in order, among the URLs it fetches; the entries are as
    [entry_ok] says; the fetched URLs satisfy [D]. *)
Definition discipline (cfg : Config) (D : string -> Prop) (s s' : Scraper) : Prop :=
  exists evs,
    trace s' = trace s ++ evs
    /\ (entry_url <$> puts evs) `sublist_of` fetched evs
    /\ Forall (entry_ok cfg) (puts evs)
    /\ forall x, x ∈ fetched evs -> D x.

(** No stored depth is above [max_depth]. *)
Definition depth_bounded (cfg : Config) (m : gmap string Page) : Prop :=
  forall k p, m !! k = Some p -> depth p <= max_depth cfg.

(** Every row of [m] is still in [m'], with the same [url], [source_url],
    [title] and [links] and a depth that is the same or one higher. *)
Definition rows_kept (m m' : gmap string Page) : Prop :=
  forall k p,
    m !! k = Some p ->
    exists p',
      m' !! k = Some p'
      /\ url p' = url p /\ source_url p' = source_url p
      /\ title p' = title p /\ links p' = links p
      /\ depth p <= depth p' <= depth p + 1.

(** Every row of [m] is still in [m'], with the same [url], [source_url],
    [title] and [links] and a depth that is the same or higher. *)
Definition rows_preserved (m m' : gmap string Page) : Prop :=
  forall k p,
    m !! k = Some p ->
    exists p',
      m' !! k = Some p'
      /\ url p' = url p /\ source_url p' = source_url p
      /\ title p' = title p /\ links p' = links p
      /\ depth p <= depth p'.

(** The characters from space to tilde. *)
Definition printable (c : ascii) : bool :=
  let n := nat_of_ascii c in (Nat.leb 32 n && Nat.leb n 126)%bool.

(** Sites for the examples of the further properties. *)
Module Sample.

(** The seed page links to [/a] and carries an href with an unbalanced
    bracket; [/a] cannot be fetched. *)
Definition broken (u : string) : option (string * Soup) :=
  if String.eqb u Example.seed then
    Some (Example.seed, mkSoup (Some (Some "Home")) [Some "/a"; Some "//[x"])
  else None.

Definition broken_world : World :=
  mkWorld broken (fun _ => true)
          (fun fs => fs) (fun fs => Permutation_refl fs)
          elements (fun s => Permutation_refl (elements s)).



End Sample.

(** * Properties *)

(** ** [json.loads] inverts [json.dumps] on lists of strings *)

Module JsonFacts.
Import Json JsonScan.

Lemma append_assoc (a b c : string) : (a +^ b) +^ c = a +^ (b +^ c).
Proof. induction a as [|x a IH]; cbn; [reflexivity | f_equal; exact IH]. Qed.

Lemma below_16 (P : N -> Prop) :
  P 0%N -> P 1%N -> P 2%N -> P 3%N -> P 4%N -> P 5%N -> P 6%N -> P 7%N ->
  P 8%N -> P 9%N -> P 10%N -> P 11%N -> P 12%N -> P 13%N -> P 14%N -> P 15%N ->
  forall d, (d < 16)%N -> P d.
Proof.
  intros H0 H1 H2 H3 H4 H5 H6 H7 H8 H9 H10 H11 H12 H13 H14 H15 d Hd.
  rewrite <- (N2Nat.id d). assert (Hk : (N.to_nat d < 16)%nat) by lia.
  revert Hk. generalize (N.to_nat d). intros k Hk.
  do 16 (destruct k as [|k]; [assumption|]). lia.
Qed.

Lemma hex_value_digit d : (d < 16)%N -> hex_value (hex_digit d) = Some d.
Proof. revert d. apply below_16; reflexivity. Qed.

Lemma decode_hex4 n x1 x2 x3 x4 :
  (n < 65536)%N ->
  hex4 n = String x1 (String x2 (String x3 (String x4 ""))) ->
  decode_uXXXX x1 x2 x3 x4 = Some n.
Proof.
  intros Hn [= <- <- <- <-]. unfold decode_uXXXX.
  rewrite !hex_value_digit by (apply N.mod_lt; discriminate).
  f_equal.
  pose proof (N.div_mod n 16 ltac:(discriminate)) as E0.
  pose proof (N.div_mod (n / 16) 16 ltac:(discriminate)) as E1.
  pose proof (N.div_mod (n / 16 / 16) 16 ltac:(discriminate)) as E2.
  pose proof (N.div_mod (n / 16 / 16 / 16) 16 ltac:(discriminate)) as E3.
  assert (H3 : (n / 16 / 16 / 16 < 16)%N).
  { repeat (apply N.Div0.div_lt_upper_bound). lia. }
  rewrite (N.mod_small _ _ H3) in *. lia.
Qed.

Lemma scan_u n cur vals rest :
  (n < 65536)%N ->
  scan InString cur vals (u_escape n +^ rest) = scan InString (Esc n :: cur) vals rest.
Proof.
  intros Hn. unfold u_escape, hex4.
  cbn [Py.add scan]. change (Ascii.eqb backslash dquote) with false.
  change (Ascii.eqb backslash backslash) with true.
  change (Ascii.eqb "u" "u") with true. cbv iota.
  rewrite (decode_hex4 n _ _ _ _ Hn eq_refl). reflexivity.
Qed.

Lemma scan_escape_small (a : ascii) cur vals rest :
  scan InString cur vals (escape (N_of_ascii a) +^ rest)
  = scan InString (List.rev (units_of (N_of_ascii a)) ++ cur) vals rest.
Proof. destruct a as [[] [] [] [] [] [] [] []]; reflexivity. Qed.

Lemma escape_large c :
  (256 <= c)%N ->
  escape c
  = if (c <? 65536)%N then u_escape c
    else u_escape (55296 + (c - 65536) / 1024 mod 1024)
         +^ u_escape (56320 + (c - 65536) mod 1024).
Proof.
  intros Hc. unfold escape.
  repeat match goal with
  | |- context [(c =? ?k)%N] =>
      destruct (N.eqb_spec c k) as [E|_]; [lia|]
  end.
  destruct (N.leb_spec 32 c); destruct (N.leb_spec c 126); try lia; reflexivity.
Qed.

Lemma units_of_large c :
  (256 <= c)%N ->
  units_of c
  = if (c <? 65536)%N then [Esc c]
    else [Esc (55296 + (c - 65536) / 1024 mod 1024);
          Esc (56320 + (c - 65536) mod 1024)].
Proof.
  intros Hc. unfold units_of, plain.
  repeat match goal with
  | |- context [(c =? ?k)%N] =>
      destruct (N.eqb_spec c k) as [E|_]; [lia|]
  end.
  destruct (N.leb_spec 32 c); destruct (N.leb_spec c 126); try lia; reflexivity.
Qed.

Lemma scan_escape c cur vals rest :
  scan InString cur vals (escape c +^ rest)
  = scan InString (List.rev (units_of c) ++ cur) vals rest.
Proof.
  destruct (N.lt_ge_cases c 256) as [Hs | Hl].
  - rewrite <- (N_ascii_embedding c Hs). apply scan_escape_small.
  - rewrite (escape_large c Hl), (units_of_large c Hl).
    destruct (c <? 65536)%N eqn:E.
    + apply N.ltb_lt in E. now rewrite scan_u.
    + rewrite append_assoc, !scan_u; [reflexivity | |].
      * pose proof (N.mod_lt (c - 65536) 1024 ltac:(discriminate)). lia.
      * pose proof (N.mod_lt ((c - 65536) / 1024) 1024 ltac:(discriminate)). lia.
Qed.

Lemma scan_escape_all s : forall cur vals rest,
  scan InString cur vals (escape_all s +^ rest)
  = scan InString (List.rev (units s) ++ cur) vals rest.
Proof.
  induction s as [|c s IH]; intros cur vals rest; simpl; [reflexivity|].
  rewrite append_assoc, scan_escape, IH, rev_app_distr, app_assoc. reflexivity.
Qed.

Lemma scan_literal x vals rest :
  scan InString [] vals (escape_all x +^ String dquote rest)
  = scan AfterValue [] (normalize x :: vals) rest.
Proof.
  rewrite scan_escape_all. simpl.
  rewrite app_nil_r, rev_involutive. reflexivity.
Qed.

Lemma join_tail l : forall x,
  Py.join ", " (List.map encode_basestring_ascii (x :: l)) +^ "]"
  = encode_basestring_ascii x +^ tail_of l.
Proof.
  induction l as [|y l IH]; intros x; [reflexivity|].
  change (Py.join ", " (List.map encode_basestring_ascii (x :: y :: l)))
    with (encode_basestring_ascii x +^ ", "
          +^ Py.join ", " (List.map encode_basestring_ascii (y :: l))).
  rewrite !append_assoc, IH. reflexivity.
Qed.

Lemma dumps_cons x l :
  dumps (x :: l) = "[" +^ encode_basestring_ascii x +^ tail_of l.
Proof. unfold dumps. now rewrite join_tail. Qed.

Lemma scan_tail l : forall vals,
  scan AfterValue [] vals (tail_of l) = Some (List.rev vals ++ (normalize <$> l)).
Proof.
  induction l as [|x l IH]; intros vals.
  - simpl. now rewrite app_nil_r.
  - change (tail_of (x :: l))
      with (String "," (String " " (String dquote
              (escape_all x +^ String dquote "" ) +^ tail_of l))).
    cbn [scan]. change (is_ws ",") with false. change (is_ws " ") with true.
    cbn. rewrite append_assoc. cbn. rewrite scan_literal, IH. cbn.
    now rewrite <- app_assoc.
Qed.

(** What [json.loads] reads back from the output of [json.dumps]. *)
Lemma loads_dumps_normalize l : loads (dumps l) = Some (normalize <$> l).
Proof.
  destruct l as [|x l]; [reflexivity|].
  rewrite dumps_cons. unfold loads, encode_basestring_ascii.
  cbn. rewrite append_assoc. cbn. rewrite scan_literal. apply scan_tail.
Qed.

Lemma units_of_head_low c us l :
  units_of c ++ us = Esc l :: us -> is_low l = true -> is_low c = true.
Proof.
  unfold units_of. destruct (plain c); [discriminate|].
  destruct (c <? 65536)%N; [intros [= <-]; auto|]. intros H. simpl in H.
  injection H as _ H. exfalso. revert H. clear.
  intros H. assert (Hl := f_equal (@length _) H). simpl in Hl. lia.
Qed.

Lemma combine_lit c us : combine (Lit c :: us) = c :: combine us.
Proof. reflexivity. Qed.

Lemma combine_esc_lone h us :
  (forall l rest, us = Esc l :: rest -> (is_high h && is_low l)%bool = false) ->
  combine (Esc h :: us) = h :: combine us.
Proof.
  intros H. simpl. destruct us as [|[c|l] rest]; try reflexivity.
  now rewrite (H l rest eq_refl).
Qed.

Lemma units_head s l rest :
  units s = Esc l :: rest -> is_low l = true ->
  exists c t, s = c :: t /\ is_low c = true.
Proof.
  destruct s as [|c t]; [discriminate|]. simpl. intros H Hl.
  exists c, t. split; [reflexivity|].
  unfold units_of in H. destruct (plain c); [discriminate|].
  destruct (c <? 65536)%N eqn:E.
  - simpl in H. injection H as <- _. exact Hl.
  - simpl in H. injection H as <- _. exfalso.
    unfold is_low in Hl. apply andb_true_iff in Hl as [H1 _].
    apply N.leb_le in H1.
    pose proof (N.mod_lt ((c - 65536) / 1024) 1024 ltac:(discriminate)). lia.
Qed.

Lemma normalize_id s : valid s -> no_pair s = true -> normalize s = s.
Proof.
  unfold normalize. induction s as [|c s IH]; intros Hv Hp; [reflexivity|].
  apply Forall_cons in Hv as [Hc Hv].
  assert (Hp' : no_pair s = true).
  { simpl in Hp. destruct s; [reflexivity|]. now apply andb_true_iff in Hp as [_ ?]. }
  specialize (IH Hv Hp'). simpl units. unfold units_of.
  destruct (plain c); [simpl; now rewrite IH|].
  destruct (c <? 65536)%N eqn:E.
  - simpl app. rewrite combine_esc_lone; [now rewrite IH|].
    intros l rest Hu. destruct (is_low l) eqn:Hl; [|apply andb_false_r].
    destruct (units_head s l rest Hu Hl) as (c' & t & -> & Hc').
    simpl in Hp. apply andb_true_iff in Hp as [Hp _].
    rewrite Hc' in Hp. rewrite andb_true_r in *. now apply negb_true_iff in Hp.
  - apply N.ltb_ge in E. simpl app. simpl combine.
    remember (c - 65536)%N as n eqn:En.
    assert (Hn : (n < 1048576)%N) by lia.
    assert (Hq : (n / 1024 < 1024)%N) by (apply N.Div0.div_lt_upper_bound; lia).
    pose proof (N.mod_lt n 1024 ltac:(discriminate)) as Hm.
    rewrite (N.mod_small _ _ Hq).
    assert (Hh : is_high (55296 + n / 1024) = true).
    { unfold is_high. apply andb_true_iff.
      split; apply N.leb_le; [apply N.le_add_r|]. clear -Hq. lia. }
    assert (Hlo : is_low (56320 + n mod 1024) = true).
    { unfold is_low. apply andb_true_iff.
      split; apply N.leb_le; [apply N.le_add_r|]. clear -Hm. lia. }
    rewrite Hh, Hlo. simpl. rewrite IH. f_equal.
    pose proof (N.div_mod n 1024 ltac:(discriminate)) as Hd.
    clear -Hd En E. revert Hd.
    generalize (n / 1024)%N (n mod 1024)%N. intros q r Hd. lia.
Qed.

Lemma loads_dumps l :
  Forall valid l -> Forall (fun s => no_pair s = true) l ->
  loads (dumps l) = Some l.
Proof.
  intros Hv Hp. rewrite loads_dumps_normalize. f_equal.
  induction l as [|s l IH]; [reflexivity|].
  apply Forall_cons in Hv as [Hs Hv]. apply Forall_cons in Hp as [Hps Hp].
  simpl. rewrite (normalize_id s Hs Hps). f_equal. now apply IH.
Qed.

Lemma codes_small s : Forall (fun c => (c < 256)%N) (Py.codes s).
Proof.
  unfold Py.codes. apply Forall_forall. intros c Hc.
  apply list_elem_of_fmap in Hc as (a & -> & _). apply N_ascii_bounded.
Qed.

Lemma small_valid s : Forall (fun c => (c < 256)%N) s -> valid s.
Proof.
  unfold valid. intros H. eapply Forall_impl; [exact H|].
  intros c Hc. simpl in *. lia.
Qed.

Lemma small_no_pair s : Forall (fun c => (c < 256)%N) s -> no_pair s = true.
Proof.
  induction s as [|c s IH]; intros H; [reflexivity|].
  apply Forall_cons in H as [Hc Hs]. simpl. destruct s as [|b t]; [reflexivity|].
  rewrite (IH Hs). rewrite andb_true_r. apply negb_true_iff.
  unfold is_high. destruct (N.leb_spec 55296 c); [lia | reflexivity].
Qed.


Lemma loads_dumps_codes (l : list string) :
  loads (dumps (Py.codes <$> l)) = Some (Py.codes <$> l).
Proof.
  apply loads_dumps; apply Forall_forall; intros s Hs;
    apply list_elem_of_fmap in Hs as (x & -> & _).
  - apply small_valid, codes_small.
  - apply small_no_pair, codes_small.
Qed.

End JsonFacts.

(** ** The trace and the state across an expansion *)

Section Traversal.

Variable w : World.
Variable cfg : Config.

Lemma fetched_app t1 t2 : fetched (t1 ++ t2) = fetched t1 ++ fetched t2.
Proof.
  induction t1 as [|e t1 IH]; [reflexivity|].
  destruct e; simpl; rewrite IH; reflexivity.
Qed.

Lemma puts_app t1 t2 : puts (t1 ++ t2) = puts t1 ++ puts t2.
Proof.
  induction t1 as [|e t1 IH]; [reflexivity|].
  destruct e; simpl; rewrite IH; reflexivity.
Qed.

Lemma quiet_refl s : quiet cfg s s.
Proof.
  unfold quiet. split_and!; auto.
  exists []. rewrite app_nil_r. split_and!; auto.
Qed.

Lemma quiet_trans s1 s2 s3 : quiet cfg s1 s2 -> quiet cfg s2 s3 -> quiet cfg s1 s3.
Proof.
  intros (Hv & Hq & Hu & Hc & Hw & evs & Ht & Hf & Hp & Hg)
         (Hv' & Hq' & Hu' & Hc' & Hw' & evs' & Ht' & Hf' & Hp' & Hg').
  unfold quiet. split_and!; try congruence; auto.
  exists (evs ++ evs'). split_and!.
  - rewrite Ht', Ht. now rewrite app_assoc.
  - now apply Forall_app.
  - now rewrite puts_app, Hp, Hp'.
  - now rewrite fetched_app, Hg, Hg'.
Qed.

(** one event that is neither a fetch nor a put *)
Lemma quiet_emit e s :
  traversal_event cfg e -> puts [e] = [] -> fetched [e] = [] ->
  quiet cfg s (emit e s).
Proof.
  intros He Hp Hf. unfold quiet. split_and!; auto.
  exists [e]. split_and!; auto.
Qed.

Lemma quiet_log l m s : quiet cfg s (log l m s).
Proof. apply quiet_emit; simpl; auto. Qed.

Lemma store_wf_insert p m : store_wf m -> store_wf (<[url p := p]> m).
Proof.
  intros Hm k q. rewrite lookup_insert. case_decide.
  - intros [= <-]. assumption.
  - apply Hm.
Qed.

Lemma quiet_commit p s : quiet cfg s (commit ByGetLink p s).
Proof.
  unfold quiet. split_and!; auto.
  - apply store_wf_insert.
  - exists [EvCommit ByGetLink p]. split_and!; auto. repeat constructor.
Qed.

Lemma get_link_quiet href s : quiet cfg s (snd (get_link w cfg href s)).
Proof.
  unfold get_link.
  destruct (Url.urlparse href) as [|p]; [apply quiet_log|].
  destruct (Url.urlparse (initial_url cfg)) as [|q]; [apply quiet_log|].
  destruct (String.eqb _ _); [|apply quiet_refl].
  destruct (pages s !! href) as [pg|].
  - destruct (depth pg <? max_depth cfg); [|apply quiet_refl].
    destruct (commit_ok w _); [apply quiet_commit | apply quiet_log].
  - destruct (commit_ok w _); [apply quiet_commit | apply quiet_log].
Qed.

Lemma submit_links_quiet anchors : forall futures s,
  quiet cfg s (snd (submit_links w cfg anchors futures s)).
Proof.
  induction anchors as [|a rest IH]; intros futures s; simpl.
  - apply quiet_refl.
  - destruct (resolve_href cfg a) as [[e|href]|]; simpl.
    + apply quiet_refl.
    + pose proof (get_link_quiet href s) as Hq.
      destruct (get_link w cfg href s) as [r s1]. simpl in Hq.
      eapply quiet_trans; [exact Hq | apply IH].
    + apply IH.
Qed.

Lemma get_links_quiet soup s : quiet cfg s (snd (get_links w cfg soup s)).
Proof.
  unfold get_links.
  destruct (ThreadPoolExecutor (max_threads cfg)); [apply quiet_refl|].
  pose proof (submit_links_quiet (soup_anchors soup) [] s) as Hq.
  destruct (submit_links w cfg (soup_anchors soup) [] s) as [[e|fs] s1]; exact Hq.
Qed.

Lemma progress_refl s : progress cfg s s.
Proof.
  exists []. rewrite app_nil_r. simpl. rewrite app_nil_r.
  split_and!; auto; try (intros x Hx; inversion Hx); constructor.
Qed.

Lemma progress_trans s1 s2 s3 :
  progress cfg s1 s2 -> progress cfg s2 s3 -> progress cfg s1 s3.
Proof.
  intros (evs & Ht & Hf & Hv & Hq & Hu & Hn & Hm & Hw & Hp)
         (evs' & Ht' & Hf' & Hv' & Hq' & Hu' & Hn' & Hm' & Hw' & Hp').
  exists (evs ++ evs'). split_and!.
  - rewrite Ht', Ht. now rewrite app_assoc.
  - now apply Forall_app.
  - etrans; eassumption.
  - rewrite Hq', Hq, puts_app, map_app. now rewrite app_assoc.
  - congruence.
  - rewrite fetched_app. apply NoDup_app. split_and!; auto.
    intros u Hu1 Hu2. destruct (Hm u Hu1) as [_ Hin].
    destruct (Hm' u Hu2) as [Hnin _]. contradiction.
  - intros u H. rewrite fetched_app in H. apply elem_of_app in H as [H|H].
    + destruct (Hm u H) as [Ha Hb]. split; [assumption | apply Hv', Hb].
    + destruct (Hm' u H) as [Ha Hb]. split; [|assumption].
      intros Hin. apply Ha, Hv, Hin.
  - auto.
  - intros e He. rewrite puts_app in He. apply elem_of_app in He as [He|He].
    + rewrite Ht'. apply elem_of_app. left. now apply Hp.
    + now apply Hp'.
Qed.

Lemma quiet_progress s s' : quiet cfg s s' -> progress cfg s s'.
Proof.
  intros (Hv & Hq & Hu & Hc & Hw & evs & Ht & Hf & Hp & Hg).
  exists evs. rewrite Hp, Hg, Hv, Hq. simpl. rewrite app_nil_r.
  split_and!; auto; try (intros x Hx; inversion Hx); constructor.
Qed.

Lemma run_tasks_progress task links : forall s,
  (forall l s0, progress cfg s0 (snd (task l s0))) ->
  progress cfg s (snd (run_tasks task links s)).
Proof.
  induction links as [|l rest IH]; intros s Ht; simpl.
  - apply progress_refl.
  - pose proof (Ht l s) as H1.
    destruct (task l s) as [o s1]. simpl in H1.
    destruct o; simpl; try (eapply progress_trans; [exact H1 | apply IH; exact Ht]).
    exact H1.
Qed.

Lemma scrape_body_progress self u d s :
  (forall l d0 s0, progress cfg s0 (snd (self l d0 s0))) ->
  progress cfg s (snd (scrape_body w cfg self u d s)).
Proof.
  intros Hself. unfold scrape_body.
  destruct (d >? max_depth cfg) eqn:Hd; [apply progress_refl|].
  destruct (decide (u ∈ visited_urls s)) as [Hin|Hnin]; [apply progress_refl|].
  assert (Hd' : d <= max_depth cfg) by lia.
  assert (Hstep : progress cfg s
            (emit (EvFetch u d) (set_visited ({[u]} ∪ visited_urls s) s))).
  { exists [EvFetch u d]. simpl. rewrite app_nil_r. split_and!; auto.
    - apply union_subseteq_r.
    - apply NoDup_singleton.
    - intros u' H. apply list_elem_of_singleton in H. subst u'.
      split; [assumption|]. apply elem_of_union_l, elem_of_singleton. reflexivity.
    - intros e He. inversion He. }
  cbv zeta.
  destruct (fetch w u) as [[final soup]|].
  2:{ eapply progress_trans; [exact Hstep|]. apply quiet_progress, quiet_log. }
  assert (Hstep2 : progress cfg s
            (set_current_url final
               (emit (EvFetch u d) (set_visited ({[u]} ∪ visited_urls s) s)))).
  { destruct Hstep as (evs & H). exists evs. exact H. }
  destruct (soup_title soup) as [[t|]|]; simpl; try exact Hstep2.
  pose proof (get_links_quiet soup
               (set_current_url final
                  (emit (EvFetch u d) (set_visited ({[u]} ∪ visited_urls s) s)))) as Hq.
  destruct (get_links w cfg soup _) as [[e|found] s1]; simpl in Hq |- *.
  - eapply progress_trans; [exact Hstep2 | apply quiet_progress, Hq].
  - eapply progress_trans; [exact Hstep2 |].
    eapply progress_trans; [apply quiet_progress, Hq |].
    assert (Hput : progress cfg s1
              (log INFO (MsgScraped u d (Py.strip t))
                 (save_to_db
                    (mkEntry u (current_url s1) d (Py.strip t) (LinksList found))
                    s1))).
    { exists [EvPut (mkEntry u (current_url s1) d (Py.strip t) (LinksList found));
              EvLog INFO (MsgScraped u d (Py.strip t))].
      simpl. split_and!; auto.
      + now rewrite <- app_assoc.
      + repeat constructor.
      + constructor.
      + intros x Hx. inversion Hx.
      + intros e0 He0. apply list_elem_of_singleton in He0. subst e0. simpl.
        destruct Hq as (_ & _ & _ & _ & _ & evq & Htq & _). rewrite Htq. simpl.
        rewrite !elem_of_app. left. left. left. right.
        apply list_elem_of_singleton. reflexivity. }
    destruct (ThreadPoolExecutor (max_threads cfg)); [exact Hput|].
    eapply progress_trans;
      [exact Hput | apply run_tasks_progress; intros l s0; apply Hself].
Qed.

Lemma scrape_progress fuel : forall u d s,
  progress cfg s (snd (scrape w cfg fuel u d s)).
Proof.
  induction fuel as [|fuel IH]; intros u d s; simpl scrape;
    apply scrape_body_progress; intros l d0 s0;
    [apply progress_refl | apply IH].
Qed.

(** ** [scrape] is total: fuel beyond the depth still to go is never used up *)

Lemma run_tasks_total task links : forall s,
  (forall l s0, fst (task l s0) <> OutOfFuel) ->
  fst (run_tasks task links s) <> OutOfFuel.
Proof.
  induction links as [|l rest IH]; intros s Ht; simpl; [discriminate|].
  specialize (Ht l s) as H1. destruct (task l s) as [o s1]. simpl in H1.
  destruct o; try (apply IH, Ht). contradiction.
Qed.

Lemma scrape_body_total self u d s :
  (d + 1 <= max_depth cfg -> forall l s0, fst (self l (d + 1) s0) <> OutOfFuel) ->
  fst (scrape_body w cfg self u d s) <> OutOfFuel.
Proof.
  intros Hself. unfold scrape_body.
  destruct (d >? max_depth cfg); [discriminate|].
  destruct (decide (u ∈ visited_urls s)); [discriminate|].
  cbv zeta. destruct (fetch w u) as [[final soup]|]; [|discriminate].
  destruct (soup_title soup) as [[t|]|]; try discriminate.
  destruct (get_links w cfg soup _) as [[e|found] s1]; [discriminate|].
  destruct (ThreadPoolExecutor (max_threads cfg)); [discriminate|].
  destruct (d + 1 <=? max_depth cfg) eqn:Hd; [|discriminate].
  apply run_tasks_total. apply Hself. lia.
Qed.

Lemma scrape_total fuel : forall u d s,
  enough_fuel cfg d fuel -> fst (scrape w cfg fuel u d s) <> OutOfFuel.
Proof.
  unfold enough_fuel.
  induction fuel as [|fuel IH]; intros u d s Hf; simpl scrape;
    apply scrape_body_total; intros Hd l s0.
  - lia.
  - apply IH. lia.
Qed.

(** ** The guards of [scrape] *)

Lemma scrape_unfold fuel u d s :
  scrape w cfg fuel u d s
  = scrape_body w cfg
      (match fuel with
       | O => fun _ _ s' => (OutOfFuel, s')
       | S fuel' => scrape w cfg fuel'
       end) u d s.
Proof. destruct fuel; reflexivity. Qed.

Lemma scrape_too_deep fuel u d s :
  max_depth cfg < d -> scrape w cfg fuel u d s = (Returned, s).
Proof.
  intros Hd. rewrite scrape_unfold. unfold scrape_body.
  destruct (d >? max_depth cfg) eqn:E; [reflexivity | lia].
Qed.

Lemma scrape_visited fuel u d s :
  u ∈ visited_urls s -> scrape w cfg fuel u d s = (Returned, s).
Proof.
  intros Hin. rewrite scrape_unfold. unfold scrape_body.
  destruct (d >? max_depth cfg); [reflexivity|].
  destruct (decide (u ∈ visited_urls s)); [reflexivity | contradiction].
Qed.

Lemma traversal_fetch_depth evs u d :
  Forall (traversal_event cfg) evs -> EvFetch u d ∈ evs -> d <= max_depth cfg.
Proof.
  intros Hall Hin. rewrite Forall_forall in Hall. exact (Hall _ Hin).
Qed.

(** ** The writer loop *)

Lemma fetched_writer_events es : fetched (List.map (writer_event w) es) = [].
Proof.
  induction es as [|e es IH]; [reflexivity|].
  simpl. unfold writer_event at 1. destruct (commit_ok w _); exact IH.
Qed.

Lemma writer_loop_drains es : forall rest s,
  exists s',
    writer_loop w (List.map Some es ++ None :: rest) s = (WriterExited, s')
    /\ db_insert_queue s' = rest
    /\ trace s' = trace s ++ List.map (writer_event w) es
    /\ visited_urls s' = visited_urls s
    /\ (store_wf (pages s) -> store_wf (pages s')).
Proof.
  induction es as [|e es IH]; intros rest s; simpl.
  - eexists. split; [reflexivity|]. simpl. rewrite app_nil_r. auto.
  - unfold writer_event at 1.
    destruct (commit_ok w (page_of_entry w e)).
    + destruct (IH rest (commit ByWriter (page_of_entry w e) s))
        as (s' & Hrun & Hq & Ht & Hv & Hw).
      exists s'. split_and!; auto.
      * rewrite Ht. simpl. now rewrite <- app_assoc.
      * intros H. apply Hw. simpl. now apply store_wf_insert.
    + destruct (IH rest (log ERROR (MsgErrorSaving (entry_url e)) s))
        as (s' & Hrun & Hq & Ht & Hv & Hw).
      exists s'. split_and!; auto.
      rewrite Ht. simpl. now rewrite <- app_assoc.
Qed.

(** ** [start_scraping] and [main] on a fresh [Scraper] object *)

Lemma start_scraping_progress fuel s :
  url_queue s = None ->
  exists s0,
    progress cfg s s0
    /\ (start_scraping w cfg fuel s = (Returned, emit EvThreadStart s0)
        \/ exists o, o <> Returned /\ start_scraping w cfg fuel s = (o, s0)).
Proof.
  intros Hq. unfold start_scraping.
  destruct (pages s !! initial_url cfg) as [pg|] eqn:Hseed; simpl.
  - unfold resume_scraping. simpl. rewrite Hseed.
    destruct (depth pg >=? max_depth cfg).
    + eexists. split; [|left; reflexivity].
      eapply progress_trans; apply quiet_progress, quiet_log.
    + rewrite Hq. eexists. split; [|right; eexists; split; [|reflexivity]; discriminate].
      apply quiet_progress, quiet_log.
  - pose proof (scrape_progress fuel (initial_url cfg) 0
                 (log INFO (MsgStart (initial_url cfg) (max_depth cfg)) s)) as Hp.
    destruct (scrape w cfg fuel (initial_url cfg) 0 _) as [o s0]. simpl in Hp.
    exists s0. split.
    + eapply progress_trans; [apply quiet_progress, quiet_log | exact Hp].
    + destruct o; [left; reflexivity | right .. ];
        eexists; (split; [|reflexivity]); discriminate.
Qed.

Lemma main_outcome fuel db :
  fst (fst (main w cfg fuel db)) = fst (start_scraping w cfg fuel (init db)).
Proof.
  unfold main. destruct (start_scraping w cfg fuel (init db)) as [o s].
  destruct o; try reflexivity.
  destruct (run_db_inserts w (cleanup s)); reflexivity.
Qed.

Lemma start_scraping_total fuel db :
  enough_fuel cfg 0 fuel ->
  fst (start_scraping w cfg fuel (init db)) <> OutOfFuel.
Proof.
  intros Hfuel. unfold start_scraping.
  destruct (pages (init db) !! initial_url cfg) as [pg|] eqn:Hseed; simpl.
  - unfold resume_scraping. simpl. simpl in Hseed. rewrite Hseed.
    destruct (depth pg >=? max_depth cfg); simpl; discriminate.
  - pose proof (scrape_total fuel (initial_url cfg) 0
                  (log INFO (MsgStart (initial_url cfg) (max_depth cfg)) (init db))
                  Hfuel) as Hne.
    destruct (scrape w cfg fuel (initial_url cfg) 0 _) as [o s0]. simpl in Hne.
    destruct o; simpl; try discriminate; contradiction.
Qed.

Lemma main_trace fuel db :
  exists evs,
    Forall (traversal_event cfg) evs
    /\ NoDup (fetched evs)
    /\ (forall u, u ∈ fetched evs -> u ∈ visited_urls (snd (main w cfg fuel db)))
    /\ ((fst (main w cfg fuel db) = (Returned, Some WriterExited)
         /\ trace (snd (main w cfg fuel db))
            = evs ++ EvThreadStart :: List.map (writer_event w) (puts evs)
         /\ db_insert_queue (snd (main w cfg fuel db)) = [])
        \/ (exists o, o <> Returned
             /\ fst (main w cfg fuel db) = (o, None)
             /\ trace (snd (main w cfg fuel db)) = evs)).
Proof.
  unfold main.
  destruct (start_scraping_progress fuel (init db) eq_refl)
    as (s0 & (evs & Ht & Hall & Hv & Hqu & _ & Hnd & Hf & _ & _) & Hrun).
  simpl in Ht, Hqu. exists evs.
  destruct Hrun as [Hrun | (o & Ho & Hrun)]; rewrite Hrun.
  - unfold run_db_inserts, cleanup. simpl. rewrite Hqu.
    destruct (writer_loop_drains (puts evs) []
                (set_queue (List.map Some (puts evs) ++ [None]) (emit EvThreadStart s0)))
      as (s' & Hw & Hq' & Ht' & Hv' & _).
    rewrite Hw. simpl. split_and!; auto.
    + intros u Hu. rewrite Hv'. simpl. apply (Hf u Hu).
    + left. split_and!; auto. rewrite Ht'. simpl. rewrite Ht.
      now rewrite <- app_assoc.
  - destruct o; try contradiction; simpl; (split_and!; auto;
      [intros u Hu; apply (Hf u Hu) | right; eexists; split_and!; eauto]).
Qed.

Lemma writer_events_no_fetch es u d :
  EvFetch u d ∉ List.map (writer_event w) es.
Proof.
  induction es as [|e es IH]; intros H; [inversion H|].
  simpl in H. apply elem_of_cons in H as [H|H]; [|exact (IH H)].
  unfold writer_event in H. destruct (commit_ok w _); discriminate.
Qed.

Lemma main_fetch_depth fuel db u d :
  EvFetch u d ∈ trace (snd (main w cfg fuel db)) -> d <= max_depth cfg.
Proof.
  destruct (main_trace fuel db) as (evs & Hall & _ & _ & Hcases).
  destruct Hcases as [(_ & Ht & _) | (o & _ & _ & Ht)]; rewrite Ht; intros Hin.
  - apply elem_of_app in Hin as [Hin|Hin];
      [exact (traversal_fetch_depth evs u d Hall Hin)|].
    apply elem_of_cons in Hin as [Hin|Hin]; [discriminate|].
    exfalso. exact (writer_events_no_fetch _ _ _ Hin).
  - exact (traversal_fetch_depth evs u d Hall Hin).
Qed.

End Traversal.

(** ** The claims on the traversal *)

(** C1.  A call [scrape(url, depth)] with [depth > max_depth] returns at
    once and leaves the whole state as it was: nothing is added to the
    visited set, the table, the queue or the trace.  Consequently every
    fetch that any call of [scrape] issues, and every fetch in the trace
    of a whole run of [main], is for a task whose depth is at most
    [max_depth]. *)
Theorem scrape_depth_guard (w : World) (cfg : Config) (fuel : nat)
        (u : string) (d : Z) (s : Scraper) :
  (max_depth cfg < d -> scrape w cfg fuel u d s = (Returned, s))
  /\ (exists evs,
        trace (snd (scrape w cfg fuel u d s)) = trace s ++ evs
        /\ forall u' d', EvFetch u' d' ∈ evs -> d' <= max_depth cfg)
  /\ (forall db u' d',
        EvFetch u' d' ∈ trace (snd (main w cfg fuel db)) -> d' <= max_depth cfg).
Proof.
  split_and!.
  - apply scrape_too_deep.
  - destruct (scrape_progress w cfg fuel u d s) as (evs & Ht & Hall & _).
    exists evs. split; [exact Ht|].
    intros u' d'. now apply traversal_fetch_depth.
  - intros db u' d'. apply main_fetch_depth.
Qed.

Lemma scrape_depth_guard_witness :
  scrape Example.world (Example.cfg 1) 3 "https://site.test/a" 2 (init ∅)
  = (Returned, init ∅).
Proof.
  apply (proj1 (scrape_depth_guard Example.world (Example.cfg 1) 3
                  "https://site.test/a" 2 (init ∅))).
  reflexivity.
Defined.

(** C2.  With one worker, no URL is fetched twice within one run.  A call
    of [scrape] on a URL of the visited set returns at once without a
    fetch.  Every call of [scrape] fetches only URLs that were not in the
    visited set when it started, each of them once, and has them in the
    visited set when it ends, however it ends: the URL is added before the
    fetch.  So in the trace of a whole run of [main] the fetched URLs are
    pairwise distinct, each of them being in the visited set.  A run with
    fuel for [max_depth] levels is never cut short. *)
Theorem visited_once (w : World) (cfg : Config) (fuel : nat)
        (db : gmap string Page) :
  (forall u d s, u ∈ visited_urls s -> scrape w cfg fuel u d s = (Returned, s))
  /\ (forall u d s,
        exists evs,
          trace (snd (scrape w cfg fuel u d s)) = trace s ++ evs
          /\ NoDup (fetched evs)
          /\ forall x, x ∈ fetched evs ->
                       (x ∉ visited_urls s)
                       /\ (x ∈ visited_urls (snd (scrape w cfg fuel u d s))))
  /\ NoDup (fetched (trace (snd (main w cfg fuel db))))
  /\ (forall u, u ∈ fetched (trace (snd (main w cfg fuel db))) ->
                u ∈ visited_urls (snd (main w cfg fuel db)))
  /\ (enough_fuel cfg 0 fuel -> fst (fst (main w cfg fuel db)) <> OutOfFuel).
Proof.
  split; [intros u d s; apply scrape_visited|].
  split.
  { intros u d s.
    destruct (scrape_progress w cfg fuel u d s)
      as (evs & Ht & _ & _ & _ & _ & Hnd & Hm & _).
    exists evs. auto. }
  destruct (main_trace w cfg fuel db) as (evs & Hall & Hnd & Hin & Hcases).
  assert (Hf : fetched (trace (snd (main w cfg fuel db))) = fetched evs).
  { destruct Hcases as [(_ & Ht & _) | (o & _ & _ & Ht)]; rewrite Ht; [|reflexivity].
    rewrite fetched_app. simpl. rewrite fetched_writer_events. apply app_nil_r. }
  rewrite Hf. split_and!; auto.
  intros Hfuel. rewrite main_outcome. now apply start_scraping_total.
Qed.

Lemma visited_once_witness :
  scrape Example.world (Example.cfg 1) 3 Example.seed 0
         (set_visited {[Example.seed]} (init ∅))
  = (Returned, set_visited {[Example.seed]} (init ∅))
  /\ fst (fst (main Example.world (Example.cfg 1) 1 ∅)) <> OutOfFuel.
Proof.
  pose proof (visited_once Example.world (Example.cfg 1) 3 ∅) as H3.
  pose proof (visited_once Example.world (Example.cfg 1) 1 ∅) as H1.
  split.
  - apply (proj1 H3). simpl. apply elem_of_singleton. reflexivity.
  - apply (proj2 (proj2 (proj2 (proj2 H1)))). unfold enough_fuel. simpl. lia.
Defined.

(** C10.  When the fetched page has no title element, [scrape] raises
    [AttributeError] at [soup.title.string]: the call does not return, and
    it stops after the fetch, with the URL in the visited set, before any
    row is written and before anything is put on the queue or logged. *)
Theorem missing_title_raises (w : World) (cfg : Config) (fuel : nat)
        (u : string) (d : Z) (s : Scraper) (final : string) (soup : Soup) :
  d <= max_depth cfg ->
  u ∉ visited_urls s ->
  fetch w u = Some (final, soup) ->
  soup_title soup = None ->
  scrape w cfg fuel u d s
  = (Raised (AttributeError "'NoneType' object has no attribute 'string'"),
     set_current_url final
       (emit (EvFetch u d) (set_visited ({[u]} ∪ visited_urls s) s))).
Proof.
  intros Hd Hnin Hfetch Htitle.
  rewrite scrape_unfold. unfold scrape_body.
  destruct (d >? max_depth cfg) eqn:E; [lia|].
  destruct (decide (u ∈ visited_urls s)); [contradiction|].
  cbv zeta. rewrite Hfetch, Htitle. reflexivity.
Qed.

Lemma missing_title_raises_witness :
  fst (scrape Example.world (Example.cfg 1) 1 "https://site.test/a" 1 (init ∅))
  = Raised (AttributeError "'NoneType' object has no attribute 'string'").
Proof.
  rewrite (missing_title_raises Example.world (Example.cfg 1) 1
             "https://site.test/a" 1 (init ∅)
             "https://site.test/a" (mkSoup None [Some "/"])).
  - reflexivity.
  - simpl. lia.
  - simpl. apply not_elem_of_empty.
  - reflexivity.
  - reflexivity.
Defined.

(** ** The claims on link resolution and classification *)

Lemma same_netloc_true (cfg : Config) (href : string) :
  same_netloc cfg href = true ->
  exists p q,
    Url.urlparse href = inr p /\ Url.urlparse (initial_url cfg) = inr q
    /\ String.eqb (Url.netloc p) (Url.netloc q) = true.
Proof.
  unfold same_netloc.
  destruct (Url.urlparse href) as [|p]; [discriminate|].
  destruct (Url.urlparse (initial_url cfg)) as [|q]; [discriminate|].
  intros H. exists p, q. auto.
Qed.

Lemma store_wf_empty : store_wf ∅.
Proof. intros k p H. rewrite lookup_empty in H. discriminate. Qed.

Lemma store_wf_singleton (p : Page) : store_wf {[url p := p]}.
Proof.
  intros k q H. apply lookup_singleton_Some in H as [<- <-]. reflexivity.
Qed.

(** The classification of [get_link] on a store that accepts the row it
    writes: without a row for the URL, a placeholder row (depth 0, empty
    title, empty links, source the URL shown by the driver) is written and
    the link is returned; with a row of depth strictly below [max_depth],
    the stored depth goes up by one and the link is returned; with a row
    whose depth has reached [max_depth], the link is left out and nothing
    changes. *)
Lemma get_link_classifies (w : World) (cfg : Config) (href : string)
        (s : Scraper) :
  same_netloc cfg href = true ->
  store_wf (pages s) ->
  (pages s !! href = None ->
   commit_ok w (mkPage href (current_url s) 0 (TitleStr "") (LinksSet ∅)) = true ->
   fst (get_link w cfg href s) = [href]
   /\ pages (snd (get_link w cfg href s))
      = <[href := mkPage href (current_url s) 0 (TitleStr "") (LinksSet ∅)]> (pages s))
  /\ (forall page,
       pages s !! href = Some page ->
       depth page < max_depth cfg ->
       commit_ok w (mkPage href (source_url page) (depth page + 1)
                           (title page) (links page)) = true ->
       fst (get_link w cfg href s) = [href]
       /\ pages (snd (get_link w cfg href s))
          = <[href := mkPage href (source_url page) (depth page + 1)
                             (title page) (links page)]> (pages s))
  /\ (forall page,
       pages s !! href = Some page ->
       max_depth cfg <= depth page ->
       get_link w cfg href s = ([], s)).
Proof.
  intros Hsame Hwf.
  destruct (same_netloc_true cfg href Hsame) as (p & q & Hp & Hq & Heq).
  unfold get_link. rewrite Hp, Hq, Heq.
  split_and!.
  - intros Hnone Hok. rewrite Hnone, Hok. split; reflexivity.
  - intros page Hsome Hlt Hok. rewrite Hsome.
    destruct (depth page <? max_depth cfg) eqn:E; [|lia].
    rewrite (Hwf href page Hsome), Hok. split; reflexivity.
  - intros page Hsome Hge. rewrite Hsome.
    destruct (depth page <? max_depth cfg) eqn:E; [lia | reflexivity].
Qed.

(** The placeholder of [get_link] is a row that SQLite cannot bind. *)
Lemma placeholder_not_bound (href source : string) :
  sqlite_binds (mkPage href source 0 (TitleStr "") (LinksSet ∅)) = false.
Proof. reflexivity. Qed.

(** C3.  The check-then-classify step of [get_link] on the store of the
    program, for a resolved same-domain link.  Without a row for the URL
    the link is returned for expansion, but the placeholder row is never
    created: it is built with [links=set()], which SQLite refuses to bind
    to the [Text] column, so [commit] raises, the handler of [get_link]
    logs the error, and the table is left without a row for the URL.  With
    a row of depth strictly below [max_depth] that the store accepts back,
    the stored depth goes up by one and the link is returned; with a row
    whose depth has reached [max_depth], the link is left out and nothing
    changes. *)
Theorem placeholder_never_stored (w : World) (cfg : Config) (href : string)
        (s : Scraper) :
  sqlite_store w ->
  same_netloc cfg href = true ->
  store_wf (pages s) ->
  (pages s !! href = None ->
   get_link w cfg href s = ([href], log ERROR (MsgErrorParsing href) s)
   /\ pages (snd (get_link w cfg href s)) = pages s
   /\ pages (snd (get_link w cfg href s)) !! href = None
   /\ forall p, EvCommit ByGetLink p ∈ trace (snd (get_link w cfg href s)) ->
                EvCommit ByGetLink p ∈ trace s)
  /\ (forall page,
       pages s !! href = Some page ->
       depth page < max_depth cfg ->
       commit_ok w (mkPage href (source_url page) (depth page + 1)
                           (title page) (links page)) = true ->
       fst (get_link w cfg href s) = [href]
       /\ pages (snd (get_link w cfg href s))
          = <[href := mkPage href (source_url page) (depth page + 1)
                             (title page) (links page)]> (pages s))
  /\ (forall page,
       pages s !! href = Some page ->
       max_depth cfg <= depth page ->
       get_link w cfg href s = ([], s)).
Proof.
  intros Hsql Hsame Hwf.
  destruct (get_link_classifies w cfg href s Hsame Hwf) as (_ & Hre & Hdone).
  split_and!; [|exact Hre | exact Hdone].
  intros Hnone.
  assert (Hrun : get_link w cfg href s
                 = ([href], log ERROR (MsgErrorParsing href) s)).
  { destruct (same_netloc_true cfg href Hsame) as (p & q & Hp & Hq & Heq).
    unfold get_link. rewrite Hp, Hq, Heq, Hnone.
    destruct (commit_ok w (mkPage href (current_url s) 0 (TitleStr "") (LinksSet ∅)))
      eqn:Hok; [|reflexivity].
    apply Hsql in Hok. rewrite placeholder_not_bound in Hok. discriminate. }
  rewrite Hrun. split_and!; try reflexivity; [exact Hnone|].
  intros p. simpl. rewrite elem_of_app. intros [H|H]; [exact H|].
  apply list_elem_of_singleton in H. discriminate.
Qed.

Lemma placeholder_never_stored_witness :
  get_link Example.sqlite_world (Example.cfg 1) "https://site.test/a" (init ∅)
  = (["https://site.test/a"],
     log ERROR (MsgErrorParsing "https://site.test/a") (init ∅))
  /\ pages (snd (get_link Example.sqlite_world (Example.cfg 1)
                          "https://site.test/a" (init ∅))) = ∅
  /\ pages (snd (get_link Example.sqlite_world (Example.cfg 1) Example.seed
                          (init {[Example.seed := Example.stored_seed 0]})))
     = <[Example.seed := Example.stored_seed 1]>
         {[Example.seed := Example.stored_seed 0]}
  /\ get_link Example.sqlite_world (Example.cfg 1) Example.seed
              (init {[Example.seed := Example.stored_seed 1]})
     = ([], init {[Example.seed := Example.stored_seed 1]}).
Proof.
  assert (Hsql : sqlite_store Example.sqlite_world) by (intros p Hp; exact Hp).
  split_and!.
  - apply (placeholder_never_stored Example.sqlite_world (Example.cfg 1)
             "https://site.test/a" (init ∅) Hsql eq_refl store_wf_empty).
    reflexivity.
  - apply (placeholder_never_stored Example.sqlite_world (Example.cfg 1)
             "https://site.test/a" (init ∅) Hsql eq_refl store_wf_empty).
    reflexivity.
  - apply (proj1 (proj2 (placeholder_never_stored Example.sqlite_world
             (Example.cfg 1) Example.seed
             (init {[Example.seed := Example.stored_seed 0]}) Hsql eq_refl
             (store_wf_singleton (Example.stored_seed 0))))
             (Example.stored_seed 0)).
    + apply lookup_singleton_eq.
    + simpl. lia.
    + reflexivity.
  - apply (proj2 (proj2 (placeholder_never_stored Example.sqlite_world
             (Example.cfg 1) Example.seed
             (init {[Example.seed := Example.stored_seed 1]}) Hsql eq_refl
             (store_wf_singleton (Example.stored_seed 1))))
             (Example.stored_seed 1)).
    + apply lookup_singleton_eq.
    + simpl. lia.
Defined.

(** Link resolution as the code does it is not link resolution in the
    words of the specification: an href without a scheme that starts with
    [http] is handed to [get_link] as it is, and rejected there, while the
    specification resolves it against the seed. *)
Lemma resolve_link_counterexample :
  lacks_scheme "httpd.html" = true
  /\ ResolveLink (Example.cfg 1) (Some "httpd.html") = None
  /\ ResolveLink_spec Example.seed (Some "httpd.html")
     = Some "https://site.test/httpd.html"
  /\ ~ (forall cfg href,
          ResolveLink cfg href = ResolveLink_spec (initial_url cfg) href).
Proof.
  split_and!; try reflexivity.
  intros H. specialize (H (Example.cfg 1) (Some "httpd.html")).
  vm_compute in H. discriminate.
Qed.

(** A relative href is resolved against the whole seed URL, not against
    its origin. *)
Lemma resolve_link_seed_directory :
  ResolveLink (mkConfig "https://site.test/docs/index.html" 1 1) (Some "b.html")
  = Some "https://site.test/docs/b.html"
  /\ ResolveLink_spec "https://site.test/docs/index.html" (Some "b.html")
     = Some "https://site.test/b.html".
Proof. split; reflexivity. Qed.

Lemma get_link_rejects (w : World) (cfg : Config) (href : string) (s : Scraper) :
  same_netloc cfg href = false ->
  fst (get_link w cfg href s) = []
  /\ pages (snd (get_link w cfg href s)) = pages s.
Proof.
  unfold same_netloc, get_link.
  destruct (Url.urlparse href) as [|p]; [split; reflexivity|].
  destruct (Url.urlparse (initial_url cfg)) as [|q]; [split; reflexivity|].
  intros ->. split; reflexivity.
Qed.

(** Link resolution as the code does it: a function of the seed and the
    href alone.  An absent or empty href is rejected.  An href that starts with
    a slash, or that does not start with [http], is resolved by [urljoin]
    with the whole seed URL as base.  An href whose network location
    differs from that of the seed is rejected by [get_link]: nothing is
    returned for it and the table is left as it was; every accepted link
    has the network location of the seed.  For the seed
    [https://site.test/], [/a/b] resolves to [https://site.test/a/b] and
    [https://other.example/x] is rejected. *)
Lemma resolve_link_amended (w : World) (cfg : Config) :
  ResolveLink cfg None = None
  /\ ResolveLink cfg (Some "") = None
  /\ (forall h,
       Py.truthy h = true ->
       Py.startswith h "/" = true \/ Py.startswith h "http" = false ->
       resolve_href cfg (Some h) = Some (Url.urljoin (initial_url cfg) h))
  /\ (forall href s,
       same_netloc cfg href = false ->
       fst (get_link w cfg href s) = []
       /\ pages (snd (get_link w cfg href s)) = pages s)
  /\ (forall href r, ResolveLink cfg href = Some r -> same_netloc cfg r = true)
  /\ (initial_url cfg = "https://site.test/" ->
      ResolveLink cfg (Some "/a/b") = Some "https://site.test/a/b"
      /\ ResolveLink cfg (Some "https://other.example/x") = None).
Proof.
  split_and!; try reflexivity.
  - intros h Ht [Hs|Hh]; unfold resolve_href; rewrite Ht.
    + rewrite Hs. reflexivity.
    + destruct (Py.startswith h "/"); [reflexivity|]. rewrite Hh. reflexivity.
  - intros href s. apply get_link_rejects.
  - intros href r. unfold ResolveLink.
    destruct (resolve_href cfg href) as [[e|h]|]; try discriminate.
    destruct (same_netloc cfg h) eqn:E; [|discriminate].
    intros [= <-]. exact E.
  - intros Hseed. unfold ResolveLink, resolve_href, same_netloc.
    rewrite Hseed. split; reflexivity.
Qed.

Lemma resolve_link_amended_witness :
  resolve_href (Example.cfg 1) (Some "/a/b") = Some (inr "https://site.test/a/b")
  /\ ResolveLink (Example.cfg 1) (Some "/a/b") = Some "https://site.test/a/b"
  /\ ResolveLink (Example.cfg 1) (Some "https://other.example/x") = None.
Proof.
  pose proof (resolve_link_amended Example.world (Example.cfg 1))
    as (_ & _ & Hjoin & _ & _ & Hex).
  split.
  - rewrite (Hjoin "/a/b" eq_refl (or_introl eq_refl)). reflexivity.
  - apply Hex. reflexivity.
Defined.

Lemma startswith_http_passed_on (cfg : Config) (h : string) :
  Py.startswith h "http" = true -> resolve_href cfg (Some h) = Some (inr h).
Proof.
  intros Hh. unfold resolve_href.
  destruct h as [|c h']; [discriminate|].
  assert (Hc : c = "h"%char).
  { cbn [Py.startswith] in Hh.
    destruct (Ascii.eqb_spec "h" c) as [<-|]; [reflexivity | discriminate]. }
  subst c. rewrite Hh. reflexivity.
Qed.

(** C4.  Link resolution on the seed [https://site.test/].  The two
    examples of the specification hold: [/a/b] resolves to
    [https://site.test/a/b] and [https://other.example/x] is rejected; an
    absent or empty href is rejected.  An href that lacks a scheme is not
    always resolved: [get_links] tests [not href.startswith("http")], so
    the relative href [httpd.html], which has no scheme, is handed to
    [get_link] as it is and rejected there by the guard on the network
    location, where resolving it against the seed, as the comment above
    the test and the specification say, gives
    [https://site.test/httpd.html], a link of the same site.  The same
    happens to every href that starts with [http]. *)
Theorem scheme_less_href_dropped (w : World) (cfg : Config) (s : Scraper) :
  initial_url cfg = "https://site.test/" ->
  ResolveLink cfg None = None
  /\ ResolveLink cfg (Some "") = None
  /\ ResolveLink cfg (Some "/a/b") = Some "https://site.test/a/b"
  /\ ResolveLink cfg (Some "https://other.example/x") = None
  /\ lacks_scheme "httpd.html" = true
  /\ (forall h, Py.startswith h "http" = true ->
               resolve_href cfg (Some h) = Some (inr h))
  /\ resolve_href cfg (Some "httpd.html") = Some (inr "httpd.html")
  /\ get_link w cfg "httpd.html" s = ([], s)
  /\ ResolveLink cfg (Some "httpd.html") = None
  /\ Url.urljoin (initial_url cfg) "httpd.html" = inr "https://site.test/httpd.html"
  /\ same_netloc cfg "https://site.test/httpd.html" = true
  /\ ResolveLink_spec (initial_url cfg) (Some "httpd.html")
     = Some "https://site.test/httpd.html".
Proof.
  intros Hseed.
  split_and!;
    first [ apply startswith_http_passed_on; reflexivity
          | reflexivity
          | unfold ResolveLink, resolve_href, same_netloc, get_link;
            rewrite Hseed; reflexivity ].
Qed.

Lemma scheme_less_href_dropped_witness :
  resolve_href (Example.cfg 1) (Some "httpd.html") = Some (inr "httpd.html")
  /\ get_link Example.world (Example.cfg 1) "httpd.html" (init ∅) = ([], init ∅)
  /\ ResolveLink_spec Example.seed (Some "httpd.html")
     = Some "https://site.test/httpd.html".
Proof.
  pose proof (scheme_less_href_dropped Example.world (Example.cfg 1) (init ∅) eq_refl)
    as (_ & _ & _ & _ & _ & _ & Hres & Hget & _ & _ & _ & Hspec).
  split_and!; [exact Hres | exact Hget | exact Hspec].
Defined.

(** ** The claims on resuming *)

Lemma resume_without_url_queue (w : World) (cfg : Config) (fuel : nat)
      (s : Scraper) (page : Page) :
  url_queue s = None ->
  pages s !! initial_url cfg = Some page ->
  depth page < max_depth cfg ->
  resume_scraping w cfg fuel s
  = (Raised (AttributeError "'Scraper' object has no attribute 'url_queue'"), s).
Proof.
  intros Hq Hseed Hlt. unfold resume_scraping. rewrite Hseed.
  destruct (depth page >=? max_depth cfg) eqn:E; [lia|].
  rewrite Hq. reflexivity.
Qed.

(** C6.  On startup, with a row for the seed whose depth is strictly below
    [max_depth], [resume_scraping] on the object built by [__init__]
    raises [AttributeError] at [self.url_queue], an attribute that
    [__init__] never assigns: the call stops before the URL is added to
    the visited set and before [scrape] is called, and leaves the state as
    it found it; [start_scraping] and [main] stop with the same
    exception, without a fetch. *)
Theorem resume_raises_attribute_error (w : World) (cfg : Config) (fuel : nat)
        (db : gmap string Page) (page : Page) :
  db !! initial_url cfg = Some page ->
  depth page < max_depth cfg ->
  resume_scraping w cfg fuel (init db)
  = (Raised (AttributeError "'Scraper' object has no attribute 'url_queue'"),
     init db)
  /\ start_scraping w cfg fuel (init db)
     = (Raised (AttributeError "'Scraper' object has no attribute 'url_queue'"),
        log INFO (MsgResuming 1 (initial_url cfg)) (init db)).
Proof.
  intros Hseed Hlt. split.
  - now apply (resume_without_url_queue w cfg fuel (init db) page).
  - unfold start_scraping. simpl. rewrite Hseed. simpl.
    rewrite (resume_without_url_queue w cfg fuel
               (log INFO (MsgResuming 1 (initial_url cfg)) (init db)) page
               eq_refl Hseed Hlt).
    reflexivity.
Qed.

Lemma resume_raises_attribute_error_witness :
  resume_scraping Example.world (Example.cfg 1) 1
                  (init {[Example.seed := Example.seed_row 0]})
  = (Raised (AttributeError "'Scraper' object has no attribute 'url_queue'"),
     init {[Example.seed := Example.seed_row 0]}).
Proof.
  apply (resume_raises_attribute_error Example.world (Example.cfg 1) 1
           {[Example.seed := Example.seed_row 0]} (Example.seed_row 0)).
  - apply lookup_singleton_eq.
  - simpl. lia.
Defined.

(** ** The claims on the writer *)

Lemma page_of_entry_list (w : World) (e : Entry) (l : list string) :
  entry_links e = LinksList l ->
  page_of_entry w e
  = mkPage (entry_url e) (entry_source e) (entry_depth e)
           (TitleBytes (codecs_encode (entry_title e)))
           (LinksStr (Json.dumps (Py.codes <$> l))).
Proof. intros H. unfold page_of_entry. rewrite H. reflexivity. Qed.

(** [codecs.encode] on a title of ASCII characters: one byte for each. *)
Lemma codecs_encode_ascii (t : string) :
  Py.all (fun c => (N_of_ascii c <? 128)%N) t = true ->
  codecs_encode t = byte_of_ascii <$> list_ascii_of_string t.
Proof.
  induction t as [|c t IH]; [reflexivity|].
  simpl. destruct (N_of_ascii c <? 128)%N eqn:E; [|discriminate].
  intros Ht. rewrite (IH Ht). unfold utf8.
  assert (Hc : Nat.ltb (nat_of_ascii c) 128 = true).
  { apply Nat.ltb_lt. apply N.ltb_lt in E. unfold nat_of_ascii. lia. }
  rewrite Hc. reflexivity.
Qed.

(** C7.  The loop of the writer, entry by entry.  At the sentinel the loop
    is left and the writer ends.  Any other entry becomes one row: it has
    the [url], the [source_url] and the [depth] of the entry, for [title]
    the UTF-8 bytes of the entry's title (one byte for each character of
    an ASCII title), and for [links] a flat string, the JSON list of the
    entry's links, which [json.loads] reads back.  When the store accepts
    the row it is written under its [url], replacing any row there and
    touching no other; when the store fails, one error line is logged, the
    table is left as it was, the entry is not put back, and in both cases
    the loop goes on with the rest of the queue.  Run on entries followed
    by the sentinel, the loop handles each entry once, in order, and ends. *)
Theorem writer_loop_entry (w : World) (q : list (option Entry)) (e : Entry)
        (s : Scraper) :
  writer_loop w (None :: q) s = (WriterExited, set_queue q s)
  /\ url (page_of_entry w e) = entry_url e
  /\ source_url (page_of_entry w e) = entry_source e
  /\ depth (page_of_entry w e) = entry_depth e
  /\ title (page_of_entry w e) = TitleBytes (codecs_encode (entry_title e))
  /\ (Py.all (fun c => (N_of_ascii c <? 128)%N) (entry_title e) = true ->
      title (page_of_entry w e)
      = TitleBytes (byte_of_ascii <$> list_ascii_of_string (entry_title e)))
  /\ (forall l,
       entry_links e = LinksList l ->
       page_of_entry w e
       = mkPage (entry_url e) (entry_source e) (entry_depth e)
                (TitleBytes (codecs_encode (entry_title e)))
                (LinksStr (Json.dumps (Py.codes <$> l)))
       /\ Json.loads (Json.dumps (Py.codes <$> l)) = Some (Py.codes <$> l))
  /\ (commit_ok w (page_of_entry w e) = true ->
      writer_loop w (Some e :: q) s
      = writer_loop w q (commit ByWriter (page_of_entry w e) s)
      /\ pages (commit ByWriter (page_of_entry w e) s)
         = <[entry_url e := page_of_entry w e]> (pages s))
  /\ (commit_ok w (page_of_entry w e) = false ->
      writer_loop w (Some e :: q) s
      = writer_loop w q (log ERROR (MsgErrorSaving (entry_url e)) s)
      /\ pages (log ERROR (MsgErrorSaving (entry_url e)) s) = pages s)
  /\ (forall es rest,
       exists s',
         writer_loop w (List.map Some es ++ None :: rest) s = (WriterExited, s')
         /\ db_insert_queue s' = rest
         /\ trace s' = trace s ++ List.map (writer_event w) es).
Proof.
  split_and!; try reflexivity.
  - intros Ht. simpl. now rewrite codecs_encode_ascii.
  - intros l Hl. split;
      [now apply page_of_entry_list | apply JsonFacts.loads_dumps_codes].
  - intros Hok. simpl. rewrite Hok. split; reflexivity.
  - intros Hko. simpl. rewrite Hko. split; reflexivity.
  - intros es rest.
    destruct (writer_loop_drains w es rest s) as (s' & Hrun & Hq & Ht & _).
    exists s'. auto.
Qed.

Lemma writer_loop_entry_witness :
  let e := mkEntry Example.seed "https://site.test/index" 1 "Home"
                   (LinksList ["https://site.test/a"]) in
  page_of_entry Example.sqlite_world e
  = mkPage Example.seed "https://site.test/index" 1
           (TitleBytes (byte_of_ascii <$> ["H"; "o"; "m"; "e"]%char))
           (LinksStr (Json.dumps [Py.codes "https://site.test/a"]))
  /\ pages (snd (writer_loop Example.sqlite_world [Some e; None] (init ∅)))
     !! Example.seed
     = Some (page_of_entry Example.sqlite_world e).
Proof.
  intros e.
  pose proof (writer_loop_entry Example.sqlite_world [None] e (init ∅))
    as (_ & _ & _ & _ & _ & _ & Hrow & Hok & _).
  split.
  - apply (Hrow ["https://site.test/a"] eq_refl).
  - rewrite (proj1 (Hok eq_refl)). simpl. apply lookup_insert_eq.
Defined.

(** ** The round trip of the serialization *)





(** C9.  The writer thread is started only after the traversal has
    returned.  In the trace of a run of [main] that returns, everything
    the traversal did (fetches, queue puts, rows written by [get_link])
    comes before the start of the thread, no row is written by the writer
    before it, and after it the writer handles every entry that was put on
    the queue, once and in order, reaches the sentinel and leaves the
    queue empty.  When the traversal raises, the thread is never started
    and the writer writes nothing. *)
Theorem writer_starts_after_traversal (w : World) (cfg : Config) (fuel : nat)
        (db : gmap string Page) :
  (fst (fst (main w cfg fuel db)) = Returned ->
   exists evs,
     Forall (traversal_event cfg) evs
     /\ trace (snd (main w cfg fuel db))
        = evs ++ EvThreadStart :: List.map (writer_event w) (puts evs)
     /\ snd (fst (main w cfg fuel db)) = Some WriterExited
     /\ db_insert_queue (snd (main w cfg fuel db)) = [])
  /\ (fst (fst (main w cfg fuel db)) <> Returned ->
      Forall (traversal_event cfg) (trace (snd (main w cfg fuel db)))
      /\ snd (fst (main w cfg fuel db)) = None).
Proof.
  destruct (main_trace w cfg fuel db) as (evs & Hall & _ & _ & Hcases).
  split; intros Hret.
  - destruct Hcases as [(Hm & Ht & Hq) | (o & Ho & Hm & _)].
    + exists evs. rewrite Hm. auto.
    + rewrite Hm in Hret. simpl in Hret. congruence.
  - destruct Hcases as [(Hm & _) | (o & Ho & Hm & Ht)].
    + rewrite Hm in Hret. simpl in Hret. congruence.
    + rewrite Ht, Hm. auto.
Qed.

Lemma writer_starts_after_traversal_witness :
  exists evs,
    trace (snd (main Example.lonely_world (Example.cfg 1) 1 ∅))
    = evs ++ EvThreadStart
          :: List.map (writer_event Example.lonely_world) (puts evs).
Proof.
  assert (Hret : fst (fst (main Example.lonely_world (Example.cfg 1) 1 ∅)) = Returned)
    by (vm_compute; reflexivity).
  destruct (proj1 (writer_starts_after_traversal Example.lonely_world
                     (Example.cfg 1) 1 ∅) Hret)
    as (evs & _ & Ht & _).
  exists evs. exact Ht.
Defined.

(** ** The seed row after a first run *)

Section Resume.

Variable w : World.
Variable cfg : Config.


Lemma puts_elem (t : list event) e : EvPut e ∈ t -> e ∈ puts t.
Proof.
  induction t as [|e' t IH]; intros H; [inversion H|].
  apply elem_of_cons in H as [<- | H].
  - simpl. apply elem_of_cons. now left.
  - specialize (IH H). destruct e'; simpl; auto. apply elem_of_cons. now right.
Qed.



(** A run on a table where the seed is stored with a depth that has
    reached [max_depth]. *)
Lemma main_already_complete fuel db page :
  db !! initial_url cfg = Some page ->
  max_depth cfg <= depth page ->
  main w cfg fuel db
  = (Returned, Some WriterExited,
     emit EvThreadStart
       (log INFO (MsgAllScraped (initial_url cfg))
          (log INFO (MsgResuming 1 (initial_url cfg)) (init db)))).
Proof.
  intros Hseed Hge. unfold main, start_scraping. simpl. rewrite Hseed. simpl.
  unfold resume_scraping. simpl. rewrite Hseed.
  destruct (depth page >=? max_depth cfg) eqn:E; [|lia].
  reflexivity.
Qed.

(** A run on a table where the seed is stored with a depth below
    [max_depth]. *)
Lemma main_resume_raises fuel db page :
  db !! initial_url cfg = Some page ->
  depth page < max_depth cfg ->
  main w cfg fuel db
  = (Raised (AttributeError "'Scraper' object has no attribute 'url_queue'"),
     None, log INFO (MsgResuming 1 (initial_url cfg)) (init db)).
Proof.
  intros Hseed Hlt. unfold main, start_scraping. simpl. rewrite Hseed. simpl.
  rewrite (resume_without_url_queue w cfg fuel
             (log INFO (MsgResuming 1 (initial_url cfg)) (init db)) page
             eq_refl Hseed Hlt).
  reflexivity.
Qed.

End Resume.

(** * Further properties of the code *)

(** ** [get_link] and [get_links] *)

Section Links.

Variable w : World.
Variable cfg : Config.

Lemma get_link_shape href s :
  fst (get_link w cfg href s) = []
  \/ (fst (get_link w cfg href s) = [href] /\ same_netloc cfg href = true).
Proof.
  unfold get_link, same_netloc.
  destruct (Url.urlparse href) as [|p]; [now left|].
  destruct (Url.urlparse (initial_url cfg)) as [|q]; [now left|].
  destruct (String.eqb _ _); [|now left].
  destruct (pages s !! href) as [pg|].
  - destruct (depth pg <? max_depth cfg); [|now left].
    destruct (commit_ok w _); now right.
  - destruct (commit_ok w _); now right.
Qed.

(** X1.  Whether [get_link] returns the link depends on the guard on the
    network location and on the stored depth alone, not on the store
    accepting the write: the link is returned exactly when it has the
    network location of the seed and either no row or a row with a depth
    below [max_depth]; otherwise nothing is returned. *)
Theorem get_link_returns_iff (href : string) (s : Scraper) :
  (fst (get_link w cfg href s) = [href]
   <-> same_netloc cfg href = true
       /\ forall page, pages s !! href = Some page -> depth page < max_depth cfg)
  /\ (fst (get_link w cfg href s) = [] \/ fst (get_link w cfg href s) = [href]).
Proof.
  split.
  - unfold get_link, same_netloc.
    destruct (Url.urlparse href) as [|p]; [split; [discriminate | intros [? _]; discriminate]|].
    destruct (Url.urlparse (initial_url cfg)) as [|q];
      [split; [discriminate | intros [? _]; discriminate]|].
    destruct (String.eqb _ _); [|split; [discriminate | intros [? _]; discriminate]].
    destruct (pages s !! href) as [pg|].
    + destruct (depth pg <? max_depth cfg) eqn:E.
      * destruct (commit_ok w _); (split; [intros _; split; [reflexivity|] | reflexivity]);
          intros page [= <-]; lia.
      * split; [discriminate|]. intros [_ H]. specialize (H pg eq_refl). lia.
    + destruct (commit_ok w _); (split; [intros _; split; [reflexivity|] | reflexivity]);
        intros page; discriminate.
  - destruct (get_link_shape href s) as [H | [H _]]; auto.
Qed.

Lemma rows_kept_refl m : rows_kept m m.
Proof. intros k p H. exists p. split_and!; auto; lia. Qed.

Lemma rows_kept_insert_fresh m k p : m !! k = None -> rows_kept m (<[k := p]> m).
Proof.
  intros Hnone k' p' H. exists p'. rewrite lookup_insert_ne by congruence.
  split_and!; auto; lia.
Qed.

Lemma get_link_rows_kept (href : string) (s : Scraper) :
  store_wf (pages s) ->
  rows_kept (pages s) (pages (snd (get_link w cfg href s)))
  /\ forall k p p',
       pages s !! k = Some p ->
       pages (snd (get_link w cfg href s)) !! k = Some p' ->
       depth p' <> depth p -> k = href /\ depth p < max_depth cfg.
Proof.
  intros Hwf. unfold get_link.
  destruct (Url.urlparse href) as [|pu];
    [split; [apply rows_kept_refl | simpl; intros; congruence]|].
  destruct (Url.urlparse (initial_url cfg)) as [|q];
    [split; [apply rows_kept_refl | simpl; intros; congruence]|].
  destruct (String.eqb _ _);
    [|split; [apply rows_kept_refl | simpl; intros; congruence]].
  destruct (pages s !! href) as [pg|] eqn:Hrow.
  - destruct (depth pg <? max_depth cfg) eqn:E;
      [|split; [apply rows_kept_refl | simpl; intros; congruence]].
    destruct (commit_ok w _);
      [|split; [apply rows_kept_refl | simpl; intros; congruence]].
    simpl. rewrite (Hwf href pg Hrow). split.
    + intros k p Hk. destruct (decide (href = k)) as [<- | Hne].
      * rewrite lookup_insert_eq. rewrite Hrow in Hk. injection Hk as <-.
        eexists. split; [reflexivity|]. simpl.
        split_and!; auto; try lia. symmetry. now apply Hwf.
      * rewrite lookup_insert_ne by exact Hne. exists p. split_and!; auto; lia.
    + intros k p p' Hk Hk' Hd. destruct (decide (href = k)) as [<- | Hne].
      * rewrite Hrow in Hk. injection Hk as <-. split; [reflexivity | lia].
      * rewrite lookup_insert_ne in Hk' by exact Hne. congruence.
  - destruct (commit_ok w _);
      [|split; [apply rows_kept_refl | simpl; intros; congruence]].
    simpl. split.
    + now apply rows_kept_insert_fresh.
    + intros k p p' Hk Hk' Hd. destruct (decide (href = k)) as [<- | Hne].
      * congruence.
      * rewrite lookup_insert_ne in Hk' by exact Hne. congruence.
Qed.

(** X2.  On a table whose rows are stored under their [url], [get_link]
    deletes no row and leaves [url], [source_url], [title] and [links] of
    every row as they were; it raises a stored depth by at most one, and
    only a depth that was below [max_depth]. *)
Theorem get_link_keeps_rows (href : string) (s : Scraper) :
  store_wf (pages s) ->
  rows_kept (pages s) (pages (snd (get_link w cfg href s)))
  /\ forall k p p',
       pages s !! k = Some p ->
       pages (snd (get_link w cfg href s)) !! k = Some p' ->
       depth p' <> depth p -> k = href /\ depth p < max_depth cfg.
Proof.
  intros Hwf. destruct (get_link_rows_kept href s Hwf) as [Hkept Hdepth].
  split.
  - exact Hkept.
  - intros k p p' Hk Hk' Hne. exact (Hdepth k p p' Hk Hk' Hne).
Qed.

End Links.

Lemma get_link_keeps_rows_witness :
  rows_kept {[Example.seed := Example.seed_row 0]}
            (pages (snd (get_link Example.world (Example.cfg 1) Example.seed
                                  (init {[Example.seed := Example.seed_row 0]})))).
Proof.
  apply (get_link_keeps_rows Example.world (Example.cfg 1) Example.seed
           (init {[Example.seed := Example.seed_row 0]})
           (store_wf_singleton (Example.seed_row 0))).
Defined.

Section Anchors.

Variable w : World.
Variable cfg : Config.

Lemma resolve_link_in_domain href l :
  ResolveLink cfg href = Some l -> in_domain cfg l.
Proof.
  unfold ResolveLink, in_domain.
  destruct (resolve_href cfg href) as [[e|h]|]; try discriminate.
  destruct (same_netloc cfg h) eqn:E; [|discriminate].
  intros [= <-]. exact E.
Qed.

Lemma elem_of_concat {A} (x : A) (ls : list (list A)) :
  x ∈ concat ls <-> exists l, l ∈ ls /\ x ∈ l.
Proof.
  rewrite list_elem_of_In, in_concat. split; intros (l & Hl & Hx); exists l.
  - now rewrite !list_elem_of_In.
  - now rewrite <- !list_elem_of_In.
Qed.

Lemma submit_links_found anchors : forall futures s fs s',
  submit_links w cfg anchors futures s = (inr fs, s') ->
  forall l, l ∈ concat fs ->
    l ∈ concat futures \/ exists a, a ∈ anchors /\ ResolveLink cfg a = Some l.
Proof.
  induction anchors as [|a rest IH]; intros futures s fs s' Hrun l Hl; simpl in Hrun.
  - injection Hrun as <- <-. now left.
  - destruct (resolve_href cfg a) as [[e|href]|] eqn:Hres.
    + discriminate.
    + destruct (get_link w cfg href s) as [r s1] eqn:Hg.
      destruct (IH _ _ _ _ Hrun l Hl) as [Hin | (a' & Ha' & Hr)].
      * rewrite concat_app in Hin. simpl in Hin. rewrite app_nil_r in Hin.
        apply elem_of_app in Hin as [Hin | Hin]; [now left|].
        right. exists a. split; [apply elem_of_cons; now left|].
        pose proof (get_link_shape w cfg href s) as Hshape. rewrite Hg in Hshape.
        simpl in Hshape. destruct Hshape as [-> | [-> Hsame]]; [inversion Hin|].
        apply list_elem_of_singleton in Hin. subst l.
        unfold ResolveLink. rewrite Hres, Hsame. reflexivity.
      * right. exists a'. split; [apply elem_of_cons; now right | exact Hr].
    + destruct (IH _ _ _ _ Hrun l Hl) as [Hin | (a' & Ha' & Hr)]; [now left|].
      right. exists a'. split; [apply elem_of_cons; now right | exact Hr].
Qed.

Lemma get_links_found soup s found s' :
  get_links w cfg soup s = (inr found, s') ->
  forall l, l ∈ found ->
    exists a, a ∈ soup_anchors soup /\ ResolveLink cfg a = Some l.
Proof.
  unfold get_links.
  destruct (ThreadPoolExecutor (max_threads cfg)); [discriminate|].
  destruct (submit_links w cfg (soup_anchors soup) [] s) as [[e|fs] s1] eqn:Hrun;
    [discriminate|].
  intros [= <- <-] l Hl.
  assert (Hl' : l ∈ concat fs).
  { apply elem_of_concat in Hl as (r & Hr & Hx). apply elem_of_concat.
    exists r. split; [|exact Hx].
    rewrite list_elem_of_In in *.
    exact (Permutation_in _ (as_completed_perm w fs) Hr). }
  destruct (submit_links_found _ _ _ _ _ Hrun l Hl') as [Hin | H]; [|exact H].
  inversion Hin.
Qed.

Lemma get_links_in_domain soup s found s' :
  get_links w cfg soup s = (inr found, s') -> Forall (in_domain cfg) found.
Proof.
  intros Hrun. apply Forall_forall. intros l Hl.
  destruct (get_links_found _ _ _ _ Hrun l Hl) as (a & _ & Hr).
  exact (resolve_link_in_domain a l Hr).
Qed.

(** X3.  Every link that [get_links] returns is the resolution of an
    anchor of the page that passed the guard on the network location: the
    list holds nothing but same-domain URLs taken from the page. *)
Theorem get_links_returns_resolved_anchors (soup : Soup) (s : Scraper)
        (found : list string) (s' : Scraper) :
  get_links w cfg soup s = (inr found, s') ->
  (forall l, l ∈ found ->
     exists a, a ∈ soup_anchors soup /\ ResolveLink cfg a = Some l)
  /\ Forall (fun l => same_netloc cfg l = true) found.
Proof.
  intros Hrun. split.
  - now apply get_links_found with s s'.
  - exact (get_links_in_domain _ _ _ _ Hrun).
Qed.

(** X4.  [get_links] only writes rows and log lines: it leaves the visited
    set, the insert queue and the driver as they were, fetches nothing and
    puts nothing on the queue, whatever the page holds and also when it
    raises. *)
Theorem get_links_touches_table_only (soup : Soup) (s : Scraper) :
  visited_urls (snd (get_links w cfg soup s)) = visited_urls s
  /\ db_insert_queue (snd (get_links w cfg soup s)) = db_insert_queue s
  /\ current_url (snd (get_links w cfg soup s)) = current_url s
  /\ fetched (trace (snd (get_links w cfg soup s))) = fetched (trace s)
  /\ puts (trace (snd (get_links w cfg soup s))) = puts (trace s).
Proof.
  destruct (get_links_quiet w cfg soup s)
    as (Hv & Hq & _ & Hc & _ & evs & Ht & _ & Hp & Hf).
  split_and!; auto.
  - rewrite Ht, fetched_app, Hf. apply app_nil_r.
  - rewrite Ht, puts_app, Hp. apply app_nil_r.
Qed.

Lemma submit_links_raises anchors : forall futures s a e,
  a ∈ anchors -> resolve_href cfg a = Some (inl e) ->
  exists e', fst (submit_links w cfg anchors futures s) = inl (UrlError e').
Proof.
  induction anchors as [|a0 rest IH]; intros futures s a e Ha Hres; [inversion Ha|].
  simpl. destruct (resolve_href cfg a0) as [[e0|href]|] eqn:H0.
  - eexists. reflexivity.
  - destruct (get_link w cfg href s) as [r s1].
    apply elem_of_cons in Ha as [-> | Ha]; [congruence|]. eapply IH; eauto.
  - apply elem_of_cons in Ha as [-> | Ha]; [congruence|]. eapply IH; eauto.
Qed.


Lemma get_links_raises soup s a e :
  a ∈ soup_anchors soup -> resolve_href cfg a = Some (inl e) ->
  exists e', fst (get_links w cfg soup s) = inl (UrlError e').
Proof.
  intros Ha Hres. unfold get_links, ThreadPoolExecutor.
  destruct (max_threads cfg <=? 0); [eexists; reflexivity|].
  destruct (submit_links_raises (soup_anchors soup) [] s a e Ha Hres) as (e' & Hr).
  destruct (submit_links w cfg (soup_anchors soup) [] s) as [r s1].
  simpl in Hr. subst r. exists e'. reflexivity.
Qed.


(** X5.  One href that [urljoin] refuses aborts the expansion of the whole
    page: [get_links] has no handler around [urljoin], so [scrape] raises
    the error, nothing is put on the queue for the page, and the URL stays
    in the visited set. *)
Theorem malformed_href_aborts_page (fuel : nat) (u : string) (d : Z)
        (s : Scraper) (final : string) (soup : Soup) (t : string)
        (a : option string) (e : Url.error) :
  d <= max_depth cfg ->
  u ∉ visited_urls s ->
  fetch w u = Some (final, soup) ->
  soup_title soup = Some (Some t) ->
  a ∈ soup_anchors soup ->
  resolve_href cfg a = Some (inl e) ->
  exists e' s',
    scrape w cfg fuel u d s = (Raised (UrlError e'), s')
    /\ db_insert_queue s' = db_insert_queue s
    /\ u ∈ visited_urls s'.
Proof.
  intros Hd Hnin Hfetch Htitle Ha Hres.
  rewrite scrape_unfold. unfold scrape_body.
  destruct (d >? max_depth cfg) eqn:E; [lia|].
  destruct (decide (u ∈ visited_urls s)); [contradiction|].
  cbv zeta. rewrite Hfetch, Htitle.
  match goal with
  | |- context [get_links w cfg soup ?s0] =>
      pose proof (get_links_quiet w cfg soup s0) as (Hv & Hq & _);
      destruct (get_links_raises soup s0 a e Ha Hres) as (e' & Hraise);
      destruct (get_links w cfg soup s0) as [r s1]
  end.
  simpl in Hraise. subst r. simpl in Hv, Hq.
  exists e', s1. split_and!; [reflexivity | exact Hq |].
  rewrite Hv. apply elem_of_union_l, elem_of_singleton. reflexivity.
Qed.



End Anchors.

Lemma malformed_href_aborts_page_witness :
  exists e' s',
    scrape Sample.broken_world (Example.cfg 1) 1 Example.seed 0 (init ∅)
    = (Raised (UrlError e'), s')
    /\ db_insert_queue s' = [].
Proof.
  destruct (malformed_href_aborts_page Sample.broken_world (Example.cfg 1) 1
              Example.seed 0 (init ∅) Example.seed
              (mkSoup (Some (Some "Home")) [Some "/a"; Some "//[x"]) "Home"
              (Some "//[x") (Url.ValueError "Invalid IPv6 URL"))
    as (e' & s' & Hrun & Hq & _).
  - simpl. lia.
  - simpl. apply not_elem_of_empty.
  - reflexivity.
  - reflexivity.
  - apply elem_of_cons. right. apply elem_of_cons. now left.
  - reflexivity.
  - exists e', s'. split; assumption.
Defined.


Lemma get_links_returns_resolved_anchors_witness :
  Forall (fun l => same_netloc (Example.cfg 1) l = true)
         ["https://site.test/a"].
Proof.
  pose (soup := mkSoup (Some (Some " Home "))
                  [Some "/a"; None; Some ""; Some "https://other.example/x";
                   Some "httpd.html"]).
  assert (Hrun : get_links Example.world (Example.cfg 1) soup (init ∅)
                 = (inr ["https://site.test/a"],
                    snd (get_links Example.world (Example.cfg 1) soup (init ∅))))
    by (vm_compute; reflexivity).
  exact (proj2 (get_links_returns_resolved_anchors Example.world (Example.cfg 1)
                  soup (init ∅) _ _ Hrun)).
Defined.

(** ** What the traversal fetches and puts on the queue *)

Section Discipline.

Variable w : World.
Variable cfg : Config.

Lemma discipline_refl D s : discipline cfg D s s.
Proof.
  exists []. rewrite app_nil_r. simpl.
  split_and!; [reflexivity | constructor | constructor | intros x Hx; inversion Hx].
Qed.

Lemma discipline_trans D s1 s2 s3 :
  discipline cfg D s1 s2 -> discipline cfg D s2 s3 -> discipline cfg D s1 s3.
Proof.
  intros (evs & Ht & Hs & Hf & Hd) (evs' & Ht' & Hs' & Hf' & Hd').
  exists (evs ++ evs'). split_and!.
  - rewrite Ht', Ht. now rewrite app_assoc.
  - rewrite puts_app, fetched_app, fmap_app. now apply sublist_app.
  - rewrite puts_app. now apply Forall_app.
  - intros x Hx. rewrite fetched_app in Hx. apply elem_of_app in Hx as [Hx|Hx]; auto.
Qed.

Lemma discipline_weaken (D D' : string -> Prop) s s' :
  (forall x, D x -> D' x) -> discipline cfg D s s' -> discipline cfg D' s s'.
Proof.
  intros HD (evs & Ht & Hs & Hf & Hd). exists evs. split_and!; auto.
Qed.

Lemma quiet_discipline D s s' : quiet cfg s s' -> discipline cfg D s s'.
Proof.
  intros (_ & _ & _ & _ & _ & evs & Ht & _ & Hp & Hg).
  exists evs. rewrite Hp, Hg. simpl.
  split_and!; [exact Ht | constructor | constructor | intros x Hx; inversion Hx].
Qed.

Lemma run_tasks_discipline D task links : forall s,
  (forall l s0, l ∈ links -> discipline cfg D s0 (snd (task l s0))) ->
  discipline cfg D s (snd (run_tasks task links s)).
Proof.
  induction links as [|l rest IH]; intros s Ht; simpl.
  - apply discipline_refl.
  - assert (Hrest : forall l' s0, l' ∈ rest -> discipline cfg D s0 (snd (task l' s0))).
    { intros l' s0 Hl'. apply Ht. apply elem_of_cons. now right. }
    pose proof (Ht l s (proj2 (elem_of_cons _ _ _) (or_introl eq_refl))) as H1.
    destruct (task l s) as [o s1]. simpl in H1.
    destruct o; simpl;
      try (eapply discipline_trans; [exact H1 | apply IH; exact Hrest]).
    exact H1.
Qed.

Lemma scrape_body_discipline self u d s :
  (forall l d0 s0,
     discipline cfg (fun x => x = l \/ in_domain cfg x) s0 (snd (self l d0 s0))) ->
  discipline cfg (fun x => x = u \/ in_domain cfg x) s
             (snd (scrape_body w cfg self u d s)).
Proof.
  intros Hself. unfold scrape_body.
  destruct (d >? max_depth cfg) eqn:Hd; [apply discipline_refl|].
  destruct (decide (u ∈ visited_urls s)) as [Hin|Hnin]; [apply discipline_refl|].
  assert (Hd' : d <= max_depth cfg) by lia.
  cbv zeta.
  assert (Hone : forall x, x ∈ [u] -> x = u \/ in_domain cfg x).
  { intros x Hx. apply list_elem_of_singleton in Hx. now left. }
  destruct (fetch w u) as [[final soup]|].
  2:{ exists [EvFetch u d; EvLog ERROR (MsgErrorScraping u)]. simpl.
      split_and!; auto.
      - now rewrite <- app_assoc.
      - apply sublist_nil_l. }
  assert (Hfetch : discipline cfg (fun x => x = u \/ in_domain cfg x) s
            (set_current_url final
               (emit (EvFetch u d) (set_visited ({[u]} ∪ visited_urls s) s)))).
  { exists [EvFetch u d]. simpl. split_and!; auto. apply sublist_nil_l. }
  destruct (soup_title soup) as [[t|]|]; simpl; try exact Hfetch.
  pose proof (get_links_quiet w cfg soup
               (set_current_url final
                  (emit (EvFetch u d) (set_visited ({[u]} ∪ visited_urls s) s)))) as Hq.
  pose proof (get_links_in_domain w cfg soup
               (set_current_url final
                  (emit (EvFetch u d) (set_visited ({[u]} ∪ visited_urls s) s)))) as Hdom.
  destruct (get_links w cfg soup _) as [[e|found] s1]; simpl in Hq |- *.
  - eapply discipline_trans; [exact Hfetch | apply quiet_discipline, Hq].
  - specialize (Hdom found s1 eq_refl).
    apply discipline_trans
      with (s2 := log INFO (MsgScraped u d (Py.strip t))
                    (save_to_db
                       (mkEntry u (current_url s1) d (Py.strip t) (LinksList found))
                       s1)).
    + destruct Hq as (_ & _ & _ & _ & _ & evq & Htq & _ & Hpq & Hfq).
      exists (EvFetch u d :: evq
              ++ [EvPut (mkEntry u (current_url s1) d (Py.strip t) (LinksList found));
                  EvLog INFO (MsgScraped u d (Py.strip t))]).
      simpl in Htq |- *. rewrite puts_app, fetched_app, Hpq, Hfq. simpl.
      split_and!.
      * rewrite Htq. rewrite <- !app_assoc. simpl. reflexivity.
      * reflexivity.
      * constructor; [|constructor]. split; [exact Hd'|].
        exists found. split; [reflexivity | exact Hdom].
      * exact Hone.
    + destruct (ThreadPoolExecutor (max_threads cfg)); [apply discipline_refl|].
      apply run_tasks_discipline. intros l s0 Hl.
      assert (Hl' : in_domain cfg l).
      { destruct (d + 1 <=? max_depth cfg); [|inversion Hl].
        rewrite Forall_forall in Hdom. now apply Hdom. }
      eapply discipline_weaken; [|apply Hself].
      intros x [-> | Hx]; right; assumption.
Qed.

Lemma scrape_discipline fuel : forall u d s,
  discipline cfg (fun x => x = u \/ in_domain cfg x) s
             (snd (scrape w cfg fuel u d s)).
Proof.
  induction fuel as [|fuel IH]; intros u d s; simpl scrape;
    apply scrape_body_discipline; intros l d0 s0;
    [apply discipline_refl | apply IH].
Qed.

Lemma puts_writer_events es : puts (List.map (writer_event w) es) = [].
Proof.
  induction es as [|e es IH]; [reflexivity|].
  simpl. unfold writer_event at 1. destruct (commit_ok w _); exact IH.
Qed.

(** The two ways a run of [main] goes: with a row for the seed nothing is
    fetched, put or written; without one, the run is the expansion of the
    seed at depth 0 followed, when it returns, by the writer loop over the
    entries it has put. *)
Lemma main_run fuel db :
  (db !! initial_url cfg <> None
   /\ fetched (trace (snd (main w cfg fuel db))) = []
   /\ puts (trace (snd (main w cfg fuel db))) = []
   /\ pages (snd (main w cfg fuel db)) = db)
  \/ (db !! initial_url cfg = None
      /\ exists o s0,
          scrape w cfg fuel (initial_url cfg) 0
                 (log INFO (MsgStart (initial_url cfg) (max_depth cfg)) (init db))
          = (o, s0)
          /\ fst (fst (main w cfg fuel db)) = o
          /\ fetched (trace (snd (main w cfg fuel db))) = fetched (trace s0)
          /\ puts (trace (snd (main w cfg fuel db))) = puts (trace s0)
          /\ (o <> Returned -> pages (snd (main w cfg fuel db)) = pages s0)
          /\ (o = Returned ->
              exists s0',
                pages s0' = pages s0
                /\ snd (main w cfg fuel db)
                   = snd (writer_loop w (List.map Some (puts (trace s0)) ++ [None]) s0'))).
Proof.
  destruct (db !! initial_url cfg) as [pg|] eqn:Hseed.
  - left. split; [discriminate|].
    destruct (Z_lt_le_dec (depth pg) (max_depth cfg)) as [Hlt | Hge].
    + rewrite (main_resume_raises w cfg fuel db pg Hseed Hlt). auto.
    + rewrite (main_already_complete w cfg fuel db pg Hseed Hge). auto.
  - right. split; [reflexivity|].
    pose proof (scrape_progress w cfg fuel (initial_url cfg) 0
                  (log INFO (MsgStart (initial_url cfg) (max_depth cfg)) (init db)))
      as Hp.
    unfold main, start_scraping. simpl. rewrite Hseed. simpl.
    destruct (scrape w cfg fuel (initial_url cfg) 0 _) as [o s0].
    exists o, s0. split; [reflexivity|]. simpl in Hp.
    destruct Hp as (evs & Ht & _ & _ & Hq & _).
    simpl in Ht, Hq.
    assert (Hputs : puts (trace s0) = puts evs) by (rewrite Ht; reflexivity).
    destruct o.
    + unfold run_db_inserts, cleanup. simpl. rewrite Hq, <- Hputs.
      destruct (writer_loop_drains w (puts (trace s0)) []
                  (set_queue (List.map Some (puts (trace s0)) ++ [None])
                             (emit EvThreadStart s0)))
        as (s' & Hw & _ & Ht' & _).
      rewrite Hw. simpl. split_and!; auto.
      * rewrite Ht'. simpl. rewrite !fetched_app, fetched_writer_events. simpl.
        now rewrite !app_nil_r.
      * rewrite Ht'. simpl. rewrite !puts_app, puts_writer_events. simpl.
        now rewrite !app_nil_r.
      * intros H. contradiction.
      * intros _. eexists. split; [|rewrite Hw; reflexivity]. reflexivity.
    + simpl. split_and!; auto. intros H. discriminate.
    + simpl. split_and!; auto. intros H. discriminate.
Qed.

(** The events of the expansion of the seed on a fresh object. *)
Lemma seed_expansion fuel db o s0 :
  scrape w cfg fuel (initial_url cfg) 0
         (log INFO (MsgStart (initial_url cfg) (max_depth cfg)) (init db))
  = (o, s0) ->
  NoDup (fetched (trace s0))
  /\ (entry_url <$> puts (trace s0)) `sublist_of` fetched (trace s0)
  /\ Forall (entry_ok cfg) (puts (trace s0))
  /\ forall x, x ∈ fetched (trace s0) -> x = initial_url cfg \/ in_domain cfg x.
Proof.
  intros Hrun.
  pose proof (scrape_progress w cfg fuel (initial_url cfg) 0
                (log INFO (MsgStart (initial_url cfg) (max_depth cfg)) (init db)))
    as (evs & Ht & _ & _ & _ & _ & Hnd & _).
  pose proof (scrape_discipline fuel (initial_url cfg) 0
                (log INFO (MsgStart (initial_url cfg) (max_depth cfg)) (init db)))
    as (evs' & Ht' & Hsub & Hok & Hdom).
  rewrite Hrun in Ht, Ht'. simpl in Ht, Ht'.
  assert (evs' = evs) as -> by (rewrite Ht in Ht'; now injection Ht').
  rewrite Ht. simpl. auto.
Qed.

End Discipline.

(** ** What a whole run fetches, queues and stores *)

(** X7.  A run never leaves the domain of the seed: every URL given to
    [driver.get] during a run of [main] is the seed itself or a URL that
    passed the guard of [get_link], so it parses and has the network
    location of the seed. *)
Theorem crawl_stays_in_domain (w : World) (cfg : Config) (fuel : nat)
        (db : gmap string Page) (x : string) :
  x ∈ fetched (trace (snd (main w cfg fuel db))) ->
  x = initial_url cfg \/ same_netloc cfg x = true.
Proof.
  destruct (main_run w cfg fuel db)
    as [(_ & Hf & _) | (_ & o & s0 & Hrun & _ & Hf & _)]; rewrite Hf.
  - intros H. inversion H.
  - destruct (seed_expansion w cfg fuel db o s0 Hrun) as (_ & _ & _ & Hdom).
    apply Hdom.
Qed.

Lemma crawl_stays_in_domain_witness :
  same_netloc (Example.cfg 1) "https://site.test/a" = true.
Proof.
  destruct (crawl_stays_in_domain Example.world (Example.cfg 1) 1 ∅
              "https://site.test/a") as [H | H].
  - vm_compute. apply elem_of_cons. right. apply elem_of_cons. now left.
  - discriminate.
  - exact H.
Defined.

(** X8.  With one worker ([max_threads = 1], so that the calls submitted
    to an executor run one after the other), within one run every URL
    gets at most one entry on the insert queue, and only a URL that was
    fetched gets one: the URLs of the entries put during a run of [main]
    are pairwise distinct and are, in the same order, among the fetched
    URLs. *)
Theorem one_entry_per_url (w : World) (cfg : Config) (fuel : nat)
        (db : gmap string Page) :
  max_threads cfg = 1 ->
  NoDup (entry_url <$> puts (trace (snd (main w cfg fuel db))))
  /\ (entry_url <$> puts (trace (snd (main w cfg fuel db))))
     `sublist_of` fetched (trace (snd (main w cfg fuel db))).
Proof.
  intros _.
  destruct (main_run w cfg fuel db)
    as [(_ & Hf & Hp & _) | (_ & o & s0 & Hrun & _ & Hf & Hp & _)];
    rewrite Hf, Hp.
  - split; constructor.
  - destruct (seed_expansion w cfg fuel db o s0 Hrun) as (Hnd & Hsub & _).
    split; [|exact Hsub]. exact (sublist_NoDup _ _ Hnd Hsub).
Qed.

Lemma one_entry_per_url_witness :
  entry_url <$> puts (trace (snd (main Example.world (Example.cfg 1) 1 ∅)))
  = [Example.seed]
  /\ NoDup (entry_url
              <$> puts (trace (snd (main Example.world (Example.cfg 1) 1 ∅)))).
Proof.
  split; [vm_compute; reflexivity|].
  apply (one_entry_per_url Example.world (Example.cfg 1) 1 ∅ eq_refl).
Defined.

(** X9.  Every entry put on the insert queue during a run carries a depth
    of at most [max_depth] and, as [links], a list (never a set or a
    string) that holds only URLs with the network location of the seed. *)
Theorem queued_entries_well_formed (w : World) (cfg : Config) (fuel : nat)
        (db : gmap string Page) (e : Entry) :
  e ∈ puts (trace (snd (main w cfg fuel db))) ->
  entry_depth e <= max_depth cfg
  /\ exists l,
      entry_links e = LinksList l
      /\ forall x, x ∈ l -> same_netloc cfg x = true.
Proof.
  destruct (main_run w cfg fuel db)
    as [(_ & _ & Hp & _) | (_ & o & s0 & Hrun & _ & _ & Hp & _)]; rewrite Hp.
  - intros H. inversion H.
  - destruct (seed_expansion w cfg fuel db o s0 Hrun) as (_ & _ & Hok & _).
    intros He. rewrite Forall_forall in Hok.
    destruct (Hok e He) as (Hd & l & Hl & Hall).
    split; [exact Hd|]. exists l. split; [exact Hl|].
    intros x Hx. rewrite Forall_forall in Hall. exact (Hall x Hx).
Qed.

Lemma queued_entries_well_formed_witness :
  exists l,
    LinksList ["https://site.test/a"] = LinksList l
    /\ forall x, x ∈ l -> same_netloc (Example.cfg 1) x = true.
Proof.
  destruct (queued_entries_well_formed Example.world (Example.cfg 1) 1 ∅
              (mkEntry Example.seed Example.seed 0 "Home"
                       (LinksList ["https://site.test/a"])))
    as (_ & H).
  - vm_compute. apply elem_of_cons. now left.
  - exact H.
Defined.

Section Persistence.

Variable w : World.
Variable cfg : Config.

Lemma writer_loop_persists es : forall rest s e,
  NoDup (entry_url <$> es) ->
  e ∈ es ->
  commit_ok w (page_of_entry w e) = true ->
  pages (snd (writer_loop w (List.map Some es ++ None :: rest) s)) !! entry_url e
  = Some (page_of_entry w e).
Proof.
  induction es as [|e0 es IH]; intros rest s e Hnd He Hok; [inversion He|].
  simpl in Hnd. apply NoDup_cons in Hnd as [Hnin Hnd].
  apply elem_of_cons in He as [-> | He].
  - simpl. rewrite Hok.
    assert (Hkeep : forall s1,
              pages s1 !! entry_url e0 = Some (page_of_entry w e0) ->
              pages (snd (writer_loop w (List.map Some es ++ None :: rest) s1))
                !! entry_url e0 = Some (page_of_entry w e0)).
    { clear IH Hnd. revert Hnin. induction es as [|e1 es IHes]; intros Hnin s1 H1.
      - exact H1.
      - simpl in Hnin. apply not_elem_of_cons in Hnin as [Hne Hnin].
        simpl. destruct (commit_ok w (page_of_entry w e1)).
        + apply (IHes Hnin). simpl. rewrite lookup_insert_ne by congruence. exact H1.
        + apply (IHes Hnin). exact H1. }
    apply Hkeep. simpl. apply lookup_insert_eq.
  - simpl. destruct (commit_ok w (page_of_entry w e0)); now apply IH.
Qed.

Lemma writer_loop_other_keys es : forall rest s k,
  k ∉ (entry_url <$> es) ->
  pages (snd (writer_loop w (List.map Some es ++ None :: rest) s)) !! k
  = pages s !! k.
Proof.
  induction es as [|e es IH]; intros rest s k Hk; [reflexivity|].
  simpl in Hk. apply not_elem_of_cons in Hk as [Hne Hk].
  simpl. destruct (commit_ok w (page_of_entry w e)).
  - rewrite (IH _ _ _ Hk). simpl. now rewrite lookup_insert_ne by congruence.
  - now rewrite (IH _ _ _ Hk).
Qed.

Lemma writer_loop_dom es : forall rest s k,
  is_Some (pages s !! k) ->
  is_Some (pages (snd (writer_loop w (List.map Some es ++ None :: rest) s)) !! k).
Proof.
  induction es as [|e es IH]; intros rest s k Hk; [exact Hk|].
  simpl. destruct (commit_ok w (page_of_entry w e)); apply IH; [|exact Hk].
  simpl. apply lookup_insert_is_Some'. now right.
Qed.

Lemma writer_loop_depth_bounded es : forall rest s,
  Forall (entry_ok cfg) es ->
  depth_bounded cfg (pages s) ->
  depth_bounded cfg
    (pages (snd (writer_loop w (List.map Some es ++ None :: rest) s))).
Proof.
  induction es as [|e es IH]; intros rest s Hok Hb; [exact Hb|].
  apply Forall_cons in Hok as [[Hd _] Hok].
  simpl. destruct (commit_ok w (page_of_entry w e)); apply IH; auto.
  simpl. intros k p. rewrite lookup_insert. case_decide.
  - intros [= <-]. exact Hd.
  - apply Hb.
Qed.

End Persistence.

(** ** Resume idempotence *)

Section SecondRun.

Variable w : World.
Variable cfg : Config.



End SecondRun.




(** The row that the writer builds from an entry of the traversal. *)
Lemma page_of_entry_row (w : World) (cfg : Config) (e : Entry) :
  entry_ok cfg e ->
  exists l,
    entry_links e = LinksList l
    /\ page_of_entry w e
       = mkPage (entry_url e) (entry_source e) (entry_depth e)
                (TitleBytes (codecs_encode (entry_title e)))
                (LinksStr (Json.dumps (Py.codes <$> l))).
Proof.
  intros (_ & l & Hl & _). exists l. split; [exact Hl|].
  unfold page_of_entry. rewrite Hl. reflexivity.
Qed.

(** X10.  With one worker ([max_threads = 1]), after a run that returned,
    every page that was expanded is in the table with what the expansion
    found: for each entry put on the queue whose row the store accepted,
    the links of the entry are a list, and the row under the entry's
    [url] has the [url], the [source_url] and the [depth] of the entry,
    for [title] the UTF-8 bytes of its title and for [links] the JSON text
    of its list of links.  No later write of the run replaces it. *)
Theorem accepted_entries_are_stored (w : World) (cfg : Config) (fuel : nat)
        (db : gmap string Page) (e : Entry) :
  max_threads cfg = 1 ->
  fst (fst (main w cfg fuel db)) = Returned ->
  e ∈ puts (trace (snd (main w cfg fuel db))) ->
  commit_ok w (page_of_entry w e) = true ->
  exists l,
    entry_links e = LinksList l
    /\ pages (snd (main w cfg fuel db)) !! entry_url e
       = Some (mkPage (entry_url e) (entry_source e) (entry_depth e)
                      (TitleBytes (codecs_encode (entry_title e)))
                      (LinksStr (Json.dumps (Py.codes <$> l)))).
Proof.
  intros _ Hret.
  destruct (main_run w cfg fuel db)
    as [(_ & _ & Hp & _) | (_ & o & s0 & Hrun & Ho & _ & Hp & _ & Hw)]; rewrite Hp.
  - intros H. inversion H.
  - rewrite Ho in Hret. destruct (Hw Hret) as (s0' & _ & ->).
    destruct (seed_expansion w cfg fuel db o s0 Hrun) as (Hnd & Hsub & Hok & _).
    intros He Hcommit.
    rewrite Forall_forall in Hok.
    destruct (page_of_entry_row w cfg e (Hok e He)) as (l & Hl & Hrow).
    exists l. split; [exact Hl|]. rewrite <- Hrow.
    apply writer_loop_persists; auto.
    exact (sublist_NoDup _ _ Hnd Hsub).
Qed.

Lemma accepted_entries_are_stored_witness :
  pages (snd (main Example.sqlite_world (Example.cfg 1) 1 ∅)) !! Example.seed
  = Some (mkPage Example.seed Example.seed 0
                 (TitleBytes (byte_of_ascii <$> ["H"; "o"; "m"; "e"]%char))
                 (LinksStr (Json.dumps [Py.codes "https://site.test/a"]))).
Proof.
  destruct (accepted_entries_are_stored Example.sqlite_world (Example.cfg 1) 1 ∅
              (mkEntry Example.seed Example.seed 0 "Home"
                       (LinksList ["https://site.test/a"])))
    as (l & Hl & Hrow).
  - reflexivity.
  - vm_compute. reflexivity.
  - vm_compute. apply elem_of_cons. now left.
  - reflexivity.
  - injection Hl as <-. exact Hrow.
Defined.

(** ** The table across the traversal *)

Section TableRelation.

Variable w : World.
Variable cfg : Config.

(** A relation between the table before and after, kept by [get_link],
    reflexive and transitive, is kept by the whole expansion: nothing else
    in [scrape] writes to the table. *)
Variable R : gmap string Page -> gmap string Page -> Prop.
Hypothesis R_refl : forall m, R m m.
Hypothesis R_trans : forall m1 m2 m3, R m1 m2 -> R m2 m3 -> R m1 m3.
Hypothesis R_get_link :
  forall href s, R (pages s) (pages (snd (get_link w cfg href s))).

Lemma submit_links_rel anchors : forall futures s,
  R (pages s) (pages (snd (submit_links w cfg anchors futures s))).
Proof.
  induction anchors as [|a rest IH]; intros futures s; simpl; [apply R_refl|].
  destruct (resolve_href cfg a) as [[e|href]|]; simpl; [apply R_refl | | apply IH].
  pose proof (R_get_link href s) as Hg.
  destruct (get_link w cfg href s) as [r s1]. simpl in Hg.
  eapply R_trans; [exact Hg | apply IH].
Qed.

Lemma get_links_rel soup s : R (pages s) (pages (snd (get_links w cfg soup s))).
Proof.
  unfold get_links.
  destruct (ThreadPoolExecutor (max_threads cfg)); [apply R_refl|].
  pose proof (submit_links_rel (soup_anchors soup) [] s) as H.
  destruct (submit_links w cfg (soup_anchors soup) [] s) as [[e|fs] s1]; exact H.
Qed.

Lemma run_tasks_rel task links : forall s,
  (forall l s0, R (pages s0) (pages (snd (task l s0)))) ->
  R (pages s) (pages (snd (run_tasks task links s))).
Proof.
  induction links as [|l rest IH]; intros s Ht; simpl; [apply R_refl|].
  pose proof (Ht l s) as H1. destruct (task l s) as [o s1]. simpl in H1.
  destruct o; simpl; try (eapply R_trans; [exact H1 | apply IH; exact Ht]).
  exact H1.
Qed.

Lemma scrape_body_rel self u d s :
  (forall l d0 s0, R (pages s0) (pages (snd (self l d0 s0)))) ->
  R (pages s) (pages (snd (scrape_body w cfg self u d s))).
Proof.
  intros Hself. unfold scrape_body.
  destruct (d >? max_depth cfg); [apply R_refl|].
  destruct (decide (u ∈ visited_urls s)); [apply R_refl|].
  cbv zeta. destruct (fetch w u) as [[final soup]|]; [|apply R_refl].
  destruct (soup_title soup) as [[t|]|]; try apply R_refl.
  match goal with
  | |- context [get_links w cfg soup ?s0] =>
      pose proof (get_links_rel soup s0) as Hg;
      destruct (get_links w cfg soup s0) as [[e|found] s1]
  end; simpl in Hg; [exact Hg|].
  eapply R_trans; [exact Hg|].
  destruct (ThreadPoolExecutor (max_threads cfg)); [apply R_refl|].
  match goal with
  | |- context [run_tasks ?task ?children ?s_put] =>
      apply (run_tasks_rel task children s_put)
  end.
  intros l s0. apply Hself.
Qed.

Lemma scrape_rel fuel : forall u d s,
  R (pages s) (pages (snd (scrape w cfg fuel u d s))).
Proof.
  induction fuel as [|fuel IH]; intros u d s; simpl scrape;
    apply scrape_body_rel; intros l d0 s0; [apply R_refl | apply IH].
Qed.

End TableRelation.

Section Table.

Variable w : World.
Variable cfg : Config.

Lemma rows_preserved_refl m : rows_preserved m m.
Proof. intros k p H. exists p. split_and!; auto; lia. Qed.

Lemma rows_preserved_trans m1 m2 m3 :
  rows_preserved m1 m2 -> rows_preserved m2 m3 -> rows_preserved m1 m3.
Proof.
  intros H12 H23 k p Hk.
  destruct (H12 k p Hk) as (p2 & Hk2 & Hu & Hs & Ht & Hl & Hd).
  destruct (H23 k p2 Hk2) as (p3 & Hk3 & Hu' & Hs' & Ht' & Hl' & Hd').
  exists p3. split_and!; try congruence. lia.
Qed.

Lemma get_link_store_wf href s :
  store_wf (pages s) -> store_wf (pages (snd (get_link w cfg href s))).
Proof.
  destruct (get_link_quiet w cfg href s) as (_ & _ & _ & _ & Hwf & _). exact Hwf.
Qed.

Lemma get_link_rows_preserved href s :
  store_wf (pages s) ->
  store_wf (pages (snd (get_link w cfg href s)))
  /\ rows_preserved (pages s) (pages (snd (get_link w cfg href s))).
Proof.
  intros Hwf. split; [now apply get_link_store_wf|].
  destruct (get_link_rows_kept w cfg href s Hwf) as [Hk _].
  intros k p Hp. destruct (Hk k p Hp) as (p' & H1 & H2 & H3 & H4 & H5 & H6).
  exists p'. split_and!; auto. lia.
Qed.

Lemma get_link_dom href s k :
  is_Some (pages s !! k) -> is_Some (pages (snd (get_link w cfg href s)) !! k).
Proof.
  intros Hk. unfold get_link.
  destruct (Url.urlparse href) as [|pu]; [exact Hk|].
  destruct (Url.urlparse (initial_url cfg)) as [|q]; [exact Hk|].
  destruct (String.eqb _ _); [|exact Hk].
  destruct (pages s !! href) as [pg|].
  - destruct (depth pg <? max_depth cfg); [|exact Hk].
    destruct (commit_ok w _); [|exact Hk].
    simpl. apply lookup_insert_is_Some'. now right.
  - destruct (commit_ok w _); [|exact Hk].
    simpl. apply lookup_insert_is_Some'. now right.
Qed.

Lemma get_link_depth_bounded href s :
  0 <= max_depth cfg ->
  depth_bounded cfg (pages s) ->
  depth_bounded cfg (pages (snd (get_link w cfg href s))).
Proof.
  intros Hmax Hb. unfold get_link.
  destruct (Url.urlparse href) as [|pu]; [exact Hb|].
  destruct (Url.urlparse (initial_url cfg)) as [|q]; [exact Hb|].
  destruct (String.eqb _ _); [|exact Hb].
  destruct (pages s !! href) as [pg|].
  - destruct (depth pg <? max_depth cfg) eqn:E; [|exact Hb].
    destruct (commit_ok w _); [|exact Hb].
    simpl. intros k p. rewrite lookup_insert. case_decide.
    + intros [= <-]. simpl. lia.
    + apply Hb.
  - destruct (commit_ok w _); [|exact Hb].
    simpl. intros k p. rewrite lookup_insert. case_decide.
    + intros [= <-]. simpl. exact Hmax.
    + apply Hb.
Qed.

End Table.

(** X11.  The traversal only adds rows and raises depths.  On a table
    whose rows are stored under their [url], a call of [scrape], with all
    the expansions below it, deletes no row and leaves [url],
    [source_url], [title] and [links] of every row that was there as they
    were; a stored depth never goes down.  What a page was found to hold
    is changed by the writer alone. *)
Theorem scrape_preserves_rows (w : World) (cfg : Config) (fuel : nat)
        (u : string) (d : Z) (s : Scraper) :
  store_wf (pages s) ->
  store_wf (pages (snd (scrape w cfg fuel u d s)))
  /\ rows_preserved (pages s) (pages (snd (scrape w cfg fuel u d s))).
Proof.
  apply (scrape_rel w cfg
           (fun m m' => store_wf m -> store_wf m' /\ rows_preserved m m')).
  - intros m Hm. split; [exact Hm | apply rows_preserved_refl].
  - intros m1 m2 m3 H12 H23 H1.
    destruct (H12 H1) as [H2 Hr12]. destruct (H23 H2) as [H3 Hr23].
    split; [exact H3 | exact (rows_preserved_trans _ _ _ Hr12 Hr23)].
  - intros href s0. apply get_link_rows_preserved.
Qed.

Lemma scrape_preserves_rows_witness :
  rows_preserved {[Example.seed := Example.seed_row 0]}
    (pages (snd (scrape Example.world (Example.cfg 1) 1 "https://site.test/a" 0
                        (init {[Example.seed := Example.seed_row 0]})))).
Proof.
  apply (scrape_preserves_rows Example.world (Example.cfg 1) 1
           "https://site.test/a" 0 (init {[Example.seed := Example.seed_row 0]})
           (store_wf_singleton (Example.seed_row 0))).
Defined.

(** X12.  A run never deletes a row: every URL that has a row in the table
    before a run of [main] has one after it, however the run ends. *)
Theorem rows_never_deleted (w : World) (cfg : Config) (fuel : nat)
        (db : gmap string Page) (k : string) :
  is_Some (db !! k) -> is_Some (pages (snd (main w cfg fuel db)) !! k).
Proof.
  intros Hk.
  destruct (main_run w cfg fuel db)
    as [(_ & _ & _ & ->) | (_ & o & s0 & Hrun & _ & _ & _ & Hne & Hw)];
    [exact Hk|].
  assert (H0 : is_Some (pages s0 !! k)).
  { pose proof (scrape_rel w cfg
                  (fun m m' => is_Some (m !! k) -> is_Some (m' !! k))
                  (fun m H => H) (fun m1 m2 m3 H12 H23 H => H23 (H12 H))
                  (fun href s => get_link_dom w cfg href s k)
                  fuel (initial_url cfg) 0
                  (log INFO (MsgStart (initial_url cfg) (max_depth cfg)) (init db)))
      as H.
    rewrite Hrun in H. apply H. exact Hk. }
  assert (Hcase : o = Returned \/ o <> Returned)
    by (destruct o; [left; reflexivity | right; discriminate ..]).
  destruct Hcase as [Ho | Ho].
  - destruct (Hw Ho) as (s0' & Hp & ->). apply writer_loop_dom. now rewrite Hp.
  - now rewrite (Hne Ho).
Qed.

Lemma rows_never_deleted_witness :
  is_Some (pages (snd (main Example.world (Example.cfg 1) 1
                            {[Example.seed := Example.seed_row 0]}))
           !! Example.seed).
Proof.
  apply (rows_never_deleted Example.world (Example.cfg 1) 1
           {[Example.seed := Example.seed_row 0]} Example.seed).
  rewrite lookup_singleton_eq. eexists. reflexivity.
Defined.

(** X13.  No run stores a depth above [max_depth]: when every stored depth
    is at most [max_depth] before a run of [main] (as on an empty table),
    it is so after the run.  [get_link] raises only depths below the
    bound, a placeholder has depth 0, and the writer stores the depth at
    which the page was expanded. *)
Theorem stored_depth_bounded (w : World) (cfg : Config) (fuel : nat)
        (db : gmap string Page) :
  depth_bounded cfg db ->
  depth_bounded cfg (pages (snd (main w cfg fuel db))).
Proof.
  intros Hb.
  destruct (main_run w cfg fuel db)
    as [(_ & _ & _ & ->) | (_ & o & s0 & Hrun & _ & _ & _ & Hne & Hw)];
    [exact Hb|].
  assert (H0 : depth_bounded cfg (pages s0)).
  { destruct (Z_lt_le_dec (max_depth cfg) 0) as [Hneg | Hpos].
    - rewrite (scrape_too_deep w cfg fuel (initial_url cfg) 0 _ Hneg) in Hrun.
      injection Hrun as _ <-. exact Hb.
    - pose proof (scrape_rel w cfg
                    (fun m m' => depth_bounded cfg m -> depth_bounded cfg m')
                    (fun m H => H) (fun m1 m2 m3 H12 H23 H => H23 (H12 H))
                    (fun href s => get_link_depth_bounded w cfg href s Hpos)
                    fuel (initial_url cfg) 0
                    (log INFO (MsgStart (initial_url cfg) (max_depth cfg)) (init db)))
        as H.
      rewrite Hrun in H. apply H. exact Hb. }
  assert (Hcase : o = Returned \/ o <> Returned)
    by (destruct o; [left; reflexivity | right; discriminate ..]).
  destruct Hcase as [Ho | Ho].
  - destruct (Hw Ho) as (s0' & Hp & ->).
    destruct (seed_expansion w cfg fuel db o s0 Hrun) as (_ & _ & Hok & _).
    apply writer_loop_depth_bounded; [exact Hok | now rewrite Hp].
  - now rewrite (Hne Ho).
Qed.

Lemma stored_depth_bounded_witness :
  depth_bounded (Example.cfg 1)
    (pages (snd (main Example.world (Example.cfg 1) 1 ∅))).
Proof.
  apply (stored_depth_bounded Example.world (Example.cfg 1) 1 ∅).
  intros k p H. rewrite lookup_empty in H. discriminate.
Defined.

(** ** Resuming, the writer and the serialization *)

Lemma skip_until_absent last q :
  (forall u d, (u, d) ∈ q -> u <> last) -> skip_until last q = [].
Proof.
  induction q as [|[u d] q IH]; intros Hq; [reflexivity|].
  simpl. destruct (String.eqb u last) eqn:E.
  - apply String.eqb_eq in E. exfalso.
    apply (Hq u d); [apply elem_of_cons; now left | exact E].
  - apply IH. intros u' d' H. apply (Hq u' d'). apply elem_of_cons. now right.
Qed.

Lemma skip_until_present last pre d post :
  (forall u d', (u, d') ∈ pre -> u <> last) ->
  skip_until last (pre ++ (last, d) :: post) = post ++ [(last, d)].
Proof.
  induction pre as [|[u d'] pre IH]; intros Hpre; simpl.
  - rewrite String.eqb_refl. reflexivity.
  - destruct (String.eqb u last) eqn:E.
    + apply String.eqb_eq in E. exfalso.
      apply (Hpre u d'); [apply elem_of_cons; now left | exact E].
    + apply IH. intros u' d'' H. apply (Hpre u' d''). apply elem_of_cons. now right.
Qed.

(** X14.  The loop of [resume_scraping] over [url_queue] throws away every
    entry in front of the first one for the last URL and moves that entry
    to the back of the queue, keeping what was behind it in order; when
    the queue has no entry for the last URL, the loop empties it. *)
Theorem skip_until_rotates (last : string) :
  (forall pre d post,
     (forall u d', (u, d') ∈ pre -> u <> last) ->
     skip_until last (pre ++ (last, d) :: post) = post ++ [(last, d)])
  /\ (forall q, (forall u d, (u, d) ∈ q -> u <> last) -> skip_until last q = []).
Proof.
  split.
  - intros pre d post. apply skip_until_present.
  - intros q. apply skip_until_absent.
Qed.

Lemma skip_until_rotates_witness :
  skip_until "c" [("a", 0); ("c", 1); ("b", 2); ("c", 3)]
  = [("b", 2); ("c", 3); ("c", 1)].
Proof.
  apply (proj1 (skip_until_rotates "c") [("a", 0)] 1 [("b", 2); ("c", 3)]).
  intros u d H. apply list_elem_of_singleton in H. injection H as -> _.
  discriminate.
Defined.

(** X15.  Resuming never crawls.  Whatever the state of the object, also
    one that had a [url_queue], [resume_scraping] fetches nothing, puts
    nothing on the insert queue and writes no row: it returns after a log
    line, or raises at [url_queue], or adds the last URL to the visited
    set and calls [scrape] on that very URL, which the visited guard sends
    back at once. *)
Theorem resume_never_fetches (w : World) (cfg : Config) (fuel : nat)
        (s : Scraper) :
  fetched (trace (snd (resume_scraping w cfg fuel s))) = fetched (trace s)
  /\ puts (trace (snd (resume_scraping w cfg fuel s))) = puts (trace s)
  /\ db_insert_queue (snd (resume_scraping w cfg fuel s)) = db_insert_queue s
  /\ pages (snd (resume_scraping w cfg fuel s)) = pages s
  /\ forall e, fst (resume_scraping w cfg fuel s) = Raised e -> url_queue s = None.
Proof.
  unfold resume_scraping.
  destruct (pages s !! initial_url cfg) as [pg|].
  2:{ simpl. rewrite fetched_app, puts_app. simpl. rewrite !app_nil_r.
      split_and!; auto. discriminate. }
  destruct (depth pg >=? max_depth cfg).
  { simpl. rewrite fetched_app, puts_app. simpl. rewrite !app_nil_r.
    split_and!; auto. discriminate. }
  destruct (url_queue s) as [q|]; [|split_and!; auto].
  rewrite scrape_visited.
  - simpl. rewrite fetched_app, puts_app. simpl. rewrite !app_nil_r.
    split_and!; auto. discriminate.
  - simpl. apply elem_of_union_l, elem_of_singleton. reflexivity.
Qed.

(** X16.  Once the table holds a row for the seed, no run crawls: [main]
    fetches nothing, puts nothing on the queue and leaves the table as it
    found it.  The run returns when the stored depth of the seed has
    reached [max_depth] and raises otherwise. *)
Theorem seed_row_blocks_crawl (w : World) (cfg : Config) (fuel : nat)
        (db : gmap string Page) (page : Page) :
  db !! initial_url cfg = Some page ->
  fetched (trace (snd (main w cfg fuel db))) = []
  /\ puts (trace (snd (main w cfg fuel db))) = []
  /\ pages (snd (main w cfg fuel db)) = db
  /\ (fst (fst (main w cfg fuel db)) = Returned <-> max_depth cfg <= depth page).
Proof.
  intros Hseed.
  destruct (Z_lt_le_dec (depth page) (max_depth cfg)) as [Hlt | Hge].
  - rewrite (main_resume_raises w cfg fuel db page Hseed Hlt). simpl.
    split_and!; auto. split; [discriminate | lia].
  - rewrite (main_already_complete w cfg fuel db page Hseed Hge). simpl.
    split_and!; auto. split; auto.
Qed.

Lemma seed_row_blocks_crawl_witness :
  pages (snd (main Example.world (Example.cfg 3) 3
                   {[Example.seed := Example.seed_row 0]}))
  = {[Example.seed := Example.seed_row 0]}.
Proof.
  apply (seed_row_blocks_crawl Example.world (Example.cfg 3) 3
           {[Example.seed := Example.seed_row 0]} (Example.seed_row 0)).
  apply lookup_singleton_eq.
Defined.

(** X17.  The writer leaves its loop exactly when the queue holds the
    sentinel: run on a queue with a [None] it ends, having left in the
    queue what was behind the first [None]; run on a queue without one it
    handles every entry and then waits in [get] on the empty queue. *)
Theorem writer_exits_iff_sentinel (w : World) (q : list (option Entry))
        (s : Scraper) :
  (fst (writer_loop w q s) = WriterExited <-> None ∈ q)
  /\ (fst (writer_loop w q s) = WriterWaiting ->
      db_insert_queue (snd (writer_loop w q s)) = []).
Proof.
  revert s. induction q as [|[e|] q IH]; intros s; simpl.
  - split; [|reflexivity]. split; [discriminate | intros H; inversion H].
  - assert (Hiff : forall s1,
              (fst (writer_loop w q s1) = WriterExited <-> None ∈ Some e :: q)
              /\ (fst (writer_loop w q s1) = WriterWaiting ->
                  db_insert_queue (snd (writer_loop w q s1)) = [])).
    { intros s1. destruct (IH s1) as [Hi Hw]. split; [|exact Hw].
      rewrite Hi. rewrite elem_of_cons. split; [now right|].
      intros [H | H]; [discriminate | exact H]. }
    destruct (commit_ok w (page_of_entry w e)); apply Hiff.
  - split; [|discriminate]. split; [intros _; apply elem_of_cons; now left | reflexivity].
Qed.

Section Serialization.

Variable w : World.

Lemma all_add (p : ascii -> bool) (a b : string) :
  Py.all p (a +^ b) = (Py.all p a && Py.all p b)%bool.
Proof.
  induction a as [|c a IH]; [reflexivity|].
  simpl. destruct (p c); [exact IH | reflexivity].
Qed.

Lemma hex_digit_printable d :
  (d < 16)%N -> printable (Json.hex_digit d) = true.
Proof. revert d. apply JsonFacts.below_16; reflexivity. Qed.

Lemma u_escape_printable n : Py.all printable (Json.u_escape n) = true.
Proof.
  unfold Json.u_escape, Json.hex4. cbn [Py.all].
  change (printable Json.backslash) with true. change (printable "u") with true. cbv iota.
  rewrite !hex_digit_printable by (apply N.mod_lt; discriminate). reflexivity.
Qed.

Lemma escape_printable c : Py.all printable (Json.escape c) = true.
Proof.
  destruct (N.lt_ge_cases c 256) as [Hs | Hl].
  - rewrite <- (N_ascii_embedding c Hs).
    generalize (ascii_of_N c). intros a.
    destruct a as [[] [] [] [] [] [] [] []]; reflexivity.
  - rewrite (JsonFacts.escape_large c Hl). destruct (c <? 65536)%N.
    + apply u_escape_printable.
    + now rewrite all_add, !u_escape_printable.
Qed.

Lemma escape_all_printable s : Py.all printable (Json.escape_all s) = true.
Proof.
  induction s as [|c s IH]; [reflexivity|].
  simpl. now rewrite all_add, escape_printable, IH.
Qed.

Lemma encode_printable s : Py.all printable (Json.encode_basestring_ascii s) = true.
Proof.
  unfold Json.encode_basestring_ascii. cbn [Py.all].
  change (printable Json.dquote) with true. cbv iota.
  now rewrite all_add, escape_all_printable.
Qed.

Lemma join_printable (l : list string) :
  Forall (fun x => Py.all printable x = true) l ->
  Py.all printable (Py.join ", " l) = true.
Proof.
  induction l as [|x l IH]; intros Hl; [reflexivity|].
  apply Forall_cons in Hl as [Hx Hl]. specialize (IH Hl).
  destruct l as [|y l]; [exact Hx|].
  change (Py.join ", " (x :: y :: l)) with (x +^ ", " +^ Py.join ", " (y :: l)).
  now rewrite !all_add, Hx, IH.
Qed.

Lemma dumps_printable l : Py.all printable (Json.dumps l) = true.
Proof.
  unfold Json.dumps. rewrite !all_add, join_printable; [reflexivity|].
  apply Forall_forall. intros x Hx.
  apply list_elem_of_In, in_map_iff in Hx as (y & <- & _). apply encode_printable.
Qed.

End Serialization.

(** X18.  The text of [json.dumps] is printable ASCII whatever code
    points the strings hold, those above 255, the surrogates and those
    above 65535 included: every character of it lies between space and
    tilde.  So the text that the writer stores in [links] for an entry
    whose [links] is a list or a set is printable ASCII, and [json.loads]
    reads it back as a list. *)
Theorem stored_links_are_ascii (w : World) (e : Entry) :
  (forall l : list (list N), Py.all printable (Json.dumps l) = true)
  /\ (forall s : list N,
       Py.all printable (Json.encode_basestring_ascii s) = true)
  /\ ((forall t, entry_links e <> LinksStr t) ->
      exists text l,
        links (page_of_entry w e) = LinksStr text
        /\ Py.all printable text = true
        /\ Json.loads text = Some l).
Proof.
  split_and!; [apply dumps_printable | apply encode_printable |].
  intros Hnot. unfold page_of_entry.
  destruct (entry_links e) as [l | st | t]; simpl.
  - exists (Json.dumps (Py.codes <$> l)), (Py.codes <$> l).
    split_and!; auto using dumps_printable, JsonFacts.loads_dumps_codes.
  - exists (Json.dumps (Py.codes <$> set_iter w st)), (Py.codes <$> set_iter w st).
    split_and!; auto using dumps_printable, JsonFacts.loads_dumps_codes.
  - exfalso. exact (Hnot t eq_refl).
Qed.

Lemma stored_links_are_ascii_witness :
  Py.all printable (Json.dumps [[233; 8364; 55357; 128512; 1114111]%N]) = true
  /\ exists text l,
       links (page_of_entry Example.world
                (mkEntry Example.seed Example.seed 0 "Home"
                         (LinksList [String (ascii_of_nat 233) "a"])))
       = LinksStr text
       /\ Py.all printable text = true
       /\ Json.loads text = Some l.
Proof.
  pose proof (stored_links_are_ascii Example.world
                (mkEntry Example.seed Example.seed 0 "Home"
                         (LinksList [String (ascii_of_nat 233) "a"])))
    as (Hall & _ & Hrow).
  split; [apply Hall|].
  apply Hrow. intros t. discriminate.
Defined.

(** X19.  At the depth bound a page is expanded but its links are not
    followed: a call of [scrape] at depth [max_depth] on a URL that is not
    yet visited gives exactly one URL to [driver.get], its own, and never
    needs a nested call, whatever the page links to. *)
Theorem leaf_depth_fetches_once (w : World) (cfg : Config) (fuel : nat)
        (u : string) (s : Scraper) :
  u ∉ visited_urls s ->
  (exists evs,
     trace (snd (scrape w cfg fuel u (max_depth cfg) s)) = trace s ++ evs
     /\ fetched evs = [u])
  /\ fst (scrape w cfg fuel u (max_depth cfg) s) <> OutOfFuel.
Proof.
  intros Hnin. rewrite scrape_unfold. unfold scrape_body.
  destruct (max_depth cfg >? max_depth cfg) eqn:E; [lia|].
  destruct (decide (u ∈ visited_urls s)); [contradiction|].
  cbv zeta. destruct (fetch w u) as [[final soup]|].
  2:{ split; [|discriminate]. eexists. simpl. rewrite <- app_assoc.
      split; reflexivity. }
  destruct (soup_title soup) as [[t|]|];
    try (split; [|discriminate]; eexists; simpl; split; reflexivity).
  match goal with
  | |- context [get_links w cfg soup ?s0] =>
      pose proof (get_links_quiet w cfg soup s0)
        as (_ & _ & _ & _ & _ & evq & Htq & _ & _ & Hfq);
      destruct (get_links w cfg soup s0) as [[e|found] s1]
  end; simpl in Htq |- *.
  - split; [|discriminate]. exists (EvFetch u (max_depth cfg) :: evq).
    rewrite Htq, <- app_assoc. simpl. rewrite Hfq. split; reflexivity.
  - destruct (ThreadPoolExecutor (max_threads cfg)).
    + simpl. split; [|discriminate].
      eexists. rewrite Htq, <- !app_assoc. simpl. split; [reflexivity|].
      simpl. rewrite fetched_app, Hfq. reflexivity.
    + destruct (max_depth cfg + 1 <=? max_depth cfg) eqn:E1; [lia|].
      simpl. split; [|discriminate].
      eexists. rewrite Htq, <- !app_assoc. simpl. split; [reflexivity|].
      simpl. rewrite fetched_app, Hfq. reflexivity.
Qed.

Lemma leaf_depth_fetches_once_witness :
  fst (scrape Example.world (Example.cfg 0) 0 Example.seed 0 (init ∅)) <> OutOfFuel.
Proof.
  apply (leaf_depth_fetches_once Example.world (Example.cfg 0) 0 Example.seed (init ∅)).
  simpl. apply not_elem_of_empty.
Defined.
